(** * A shallow embedding of the tagged-PDF to HTML converter

    The development follows the TypeScript sources of the converter:
    - [src/structure_traversal.ts]: role resolution ([resolveRole],
      [isStandardType]), tag selection ([mapRoleToTag]), the recursive
      rendering of the structure tree ([processStructElement],
      [processChildren], [traverseStructure]) and [escapeHtml];
    - [src/content_extractor.ts]: the per-page marked-content tables;
    - [src/attribute_mapper.ts]: the attribute and CSS cascades;
    - [src/converter.ts]: the body part of [convertToHTML].

    JavaScript [Map]s are modelled as stdpp [gmap]s when only lookups
    matter, and as association lists in insertion order when the code
    iterates over them. A JavaScript string is a Rocq [string] holding
    its UTF-8 encoding; [Str.chars] cuts it into characters. *)

From Stdlib Require Import String Ascii ZArith List Bool.
From stdpp Require Import base gmap strings list pretty.

Import ListNotations.
Open Scope string_scope.
Set Warnings "-register-all".

(* ------------------------------------------------------------------ *)
(** ** Small string helpers (JavaScript string operations) *)

Module Str.

(** [s === t] on strings. *)
Definition eqs (s t : string) : bool := String.eqb s t.

(** [toLowerCase] on ASCII letters; other bytes are kept: the
    lower-casing of letters outside ASCII is not modelled. *)
Definition lower_char (c : ascii) : ascii :=
  let n := nat_of_ascii c in
  if (65 <=? n)%nat && (n <=? 90)%nat then ascii_of_nat (n + 32) else c.

Fixpoint toLowerCase (s : string) : string :=
  match s with
  | EmptyString => EmptyString
  | String c r => String (lower_char c) (toLowerCase r)
  end.

(** The UTF-8 encoding of a code point [0 <= n <= 0x10FFFF] (one byte
    for [n < 128]). *)
Definition byte (n : Z) : ascii := ascii_of_N (Z.to_N n).

Definition utf8 (n : Z) : string :=
  if (n <? 128)%Z then String (byte n) ""
  else if (n <? 2048)%Z then
    String (byte (192 + n / 64)) (String (byte (128 + n mod 64)) "")
  else if (n <? 65536)%Z then
    String (byte (224 + n / 4096))
      (String (byte (128 + (n / 64) mod 64)) (String (byte (128 + n mod 64)) ""))
  else
    String (byte (240 + n / 262144))
      (String (byte (128 + (n / 4096) mod 64))
        (String (byte (128 + (n / 64) mod 64)) (String (byte (128 + n mod 64)) ""))).

(** The characters of a string. A string holds the UTF-8 encoding of
    the JavaScript string; a character is a byte followed by the bytes
    [10xxxxxx] that continue it. *)
Definition is_cont (c : ascii) : bool :=
  let n := nat_of_ascii c in (128 <=? n)%nat && (n <=? 191)%nat.

Fixpoint chars (s : string) : list string :=
  match s with
  | EmptyString => []
  | String c r =>
      match chars r with
      | String d u :: us =>
          if is_cont d then String c (String d u) :: us
          else String c EmptyString :: String d u :: us
      | us => String c EmptyString :: us
      end
  end.

Definition concat (l : list string) : string := fold_right String.append "" l.

(** The white-space characters of JavaScript, matched by [\s] and
    removed by [trim] (WhiteSpace and LineTerminator): tab, line feed,
    vertical tab, form feed, carriage return, the space separators
    (U+0020, U+00A0, U+1680, U+2000 to U+200A, U+202F, U+205F, U+3000),
    U+2028, U+2029 and U+FEFF. *)
Definition ws_code_points : list Z :=
  [ 9; 10; 11; 12; 13; 32; 160; 5760;
    8192; 8193; 8194; 8195; 8196; 8197; 8198; 8199; 8200; 8201; 8202;
    8232; 8233; 8239; 8287; 12288; 65279 ]%Z.

Definition is_ws (ch : string) : bool :=
  existsb (fun n => eqs ch (utf8 n)) ws_code_points.

(** The leading white-space characters of a list of characters, and the
    rest. *)
Fixpoint span_ws (l : list string) : list string * list string :=
  match l with
  | ch :: r =>
      if is_ws ch then let '(w, rest) := span_ws r in (ch :: w, rest)
      else ([], l)
  | [] => ([], [])
  end.

Definition trim_start (s : string) : string := concat (span_ws (chars s)).2.

(** [s.trim()]. *)
Definition trim (s : string) : string :=
  concat (rev (span_ws (rev (span_ws (chars s)).2)).2).

Definition is_digit (c : ascii) : bool :=
  let n := nat_of_ascii c in (48 <=? n)%nat && (n <=? 57)%nat.

(** [parseInt(s, 10)]: leading white space, an optional sign, then the
    longest prefix of decimal digits; [None] stands for [NaN]. *)
Definition zacc (acc : option Z) : Z :=
  match acc with Some z => z | None => 0%Z end.

Fixpoint digits_prefix (s : string) (acc : option Z) : option Z :=
  match s with
  | String c r =>
      if is_digit c
      then digits_prefix r (Some (zacc acc * 10 + Z.of_nat (nat_of_ascii c - 48))%Z)
      else acc
  | EmptyString => acc
  end.

Definition parseInt (s : string) : option Z :=
  match trim_start s with
  | String c r =>
      if Ascii.eqb c "-"%char then option_map Z.opp (digits_prefix r None)
      else if Ascii.eqb c "+"%char then digits_prefix r None
      else digits_prefix (String c r) None
  | EmptyString => None
  end.

(** [s.slice(1)], for a string whose first character is ASCII. *)
Definition slice1 (s : string) : string :=
  match s with String _ r => r | EmptyString => EmptyString end.

(** Lookup in a constant table ([switch] cases or an object literal). *)
Fixpoint assoc (k : string) (l : list (string * string)) : option string :=
  match l with
  | [] => None
  | (k', v) :: r => if eqs k k' then Some v else assoc k r
  end.

End Str.

(* ------------------------------------------------------------------ *)
(** ** Standard structure types and role resolution *)

Module Roles.

(** The regular expression literal [/^H\\d+$/] of the source. In a
    JavaScript regular expression literal [\\] matches one backslash
    character, so the pattern accepts ["H"], then a backslash, then one
    or more letters [d]. *)
Fixpoint all_d (s : string) : bool :=
  match s with
  | EmptyString => true
  | String c r => Ascii.eqb c "d"%char && all_d r
  end.

Definition matches_H_backslash_d_plus (s : string) : bool :=
  match s with
  | String h (String b (String d r)) =>
      Ascii.eqb h "H"%char && Ascii.eqb b "\"%char && Ascii.eqb d "d"%char
      && all_d r
  | _ => false
  end.

(** The name set of [isStandardType]. *)
Definition standardTypes : list string :=
  [ "Document"; "Part"; "Sect"; "Div"; "Art"; "BlockQuote"; "Caption";
    "TOC"; "TOCI"; "Index"; "NonStruct"; "Private"; "Aside";
    "Title"; "FENote"; "DocumentFragment";
    "P"; "H"; "H1"; "H2"; "H3"; "H4"; "H5"; "H6";
    "L"; "LI"; "Lbl"; "LBody";
    "Table"; "TR"; "TH"; "TD"; "THead"; "TBody"; "TFoot";
    "Span"; "Quote"; "Note"; "Reference"; "BibEntry"; "Code"; "Link";
    "Annot"; "Ruby"; "RB"; "RT"; "RP"; "Warichu"; "WT"; "WP";
    "Em"; "Strong"; "Sub"; "Sup";
    "Figure"; "Formula"; "Form";
    "Artifact" ].

Definition mem (s : string) (l : list string) : bool :=
  existsb (Str.eqs s) l.

Definition isStandardType (role : string) : bool :=
  if Str.eqs role "Hn" then true
  else if matches_H_backslash_d_plus role then true
  else mem role standardTypes.

Definition isPdfStandardNamespace (namespaceURI : string) : bool :=
  if Str.eqs namespaceURI "" then true
  else
    let normalized := Str.toLowerCase (Str.trim namespaceURI) in
    if Str.eqs normalized "" then true
    else mem normalized
      [ "http://iso.org/pdf2/ssn"; "http://iso.org/pdf2/ssn#";
        "http://iso.org/pdf2/ssn/1.0"; "http://iso.org/pdf/ssn";
        "http://iso.org/pdf/ssn/1.0" ].

(** The role map of the structure tree root ([structTreeRoot?.roleMap]):
    absent, or a [Map<string, string>]. *)
Abbreviation role_map := (option (gmap string string)).

(** State after one pass of the body of the [while] loop of
    [resolveRole]: the loop either continues with a new [current] and
    [seen], or leaves through [break] with a final [current]. *)
Inductive loop_state :=
| Continue (current : string) (seen : gset string)
| Break (current : string).

(** One test of the loop condition followed, when it holds, by one pass
    of the body; [None] when the condition is false. *)
Definition loop_body (roleMap : role_map) (current : string)
    (seen : gset string) : option loop_state :=
  match roleMap with
  | None => None
  | Some rm =>
      match rm !! current with
      | None => None
      | Some next =>
          if bool_decide (current ∈ seen) then None
          else
            let seen' := {[current]} ∪ seen in
            if Str.eqs next "" then Some (Break current)
            else if isStandardType next then Some (Break next)
            else Some (Continue next seen')
      end
  end.

(** The loop, run for at most [fuel] passes. *)
Fixpoint resolve_loop (fuel : nat) (roleMap : role_map) (current : string)
    (seen : gset string) : string :=
  match fuel with
  | O => current
  | S f =>
      match loop_body roleMap current seen with
      | None => current
      | Some (Break c) => c
      | Some (Continue c s) => resolve_loop f roleMap c s
      end
  end.

Definition map_size (roleMap : role_map) : nat :=
  match roleMap with None => 0 | Some rm => size rm end.

(** [resolveRole(role, roleMap, namespaceURI)]. The loop is given one
    more pass than the map has entries; [resolve_loop_runs] shows that it
    always leaves by itself before that. *)
Definition resolveRole (role : string) (roleMap : role_map)
    (namespaceURI : string) : string :=
  if Str.eqs role "" then role
  else if isPdfStandardNamespace namespaceURI && isStandardType role then role
  else resolve_loop (S (map_size roleMap)) roleMap role ∅.

(** Big-step semantics of the unbounded loop, indexed by the number of
    passes through the body. *)
Inductive loop_runs (roleMap : role_map) :
    string -> gset string -> nat -> string -> Prop :=
| runs_exit current seen :
    loop_body roleMap current seen = None ->
    loop_runs roleMap current seen 0 current
| runs_break current seen c :
    loop_body roleMap current seen = Some (Break c) ->
    loop_runs roleMap current seen 1 c
| runs_continue current seen c s k r :
    loop_body roleMap current seen = Some (Continue c s) ->
    loop_runs roleMap c s k r ->
    loop_runs roleMap current seen (S k) r.

End Roles.

(* ------------------------------------------------------------------ *)
(** ** Markup *)

Module Html.

(** The double quote character, ASCII 34. *)
Definition dq : string := String (ascii_of_nat 34) EmptyString.

(** [s.replace(/c/g, r)]: every occurrence of the character [c] replaced
    by [r], left to right. *)
Fixpoint replace_all (c : ascii) (r : string) (s : string) : string :=
  match s with
  | EmptyString => EmptyString
  | String x rest =>
      if Ascii.eqb x c then r ++ replace_all c r rest
      else String x (replace_all c r rest)
  end.

(** [escapeHtml] of [structure_traversal.ts]: five successive global
    replacements, ampersand first. (The [typeof unsafe !== 'string']
    guard returns the empty string for non-strings; every caller passes a string.) *)
Definition escapeHtml (unsafe : string) : string :=
  replace_all "'"%char "&#039;"
    (replace_all (ascii_of_nat 34) "&quot;"
      (replace_all ">"%char "&gt;"
        (replace_all "<"%char "&lt;"
          (replace_all "&"%char "&amp;" unsafe)))).

(** Rendered markup. [processStructElement] builds strings of the form
    [<tag attrs>content</tag>], [<tag attrs/>] and strings produced by
    content leaves; the tree below keeps that structure, and [to_string]
    gives back the string. Attribute values are stored as written into
    the markup (already escaped where the source escapes them). *)
Inductive html :=
| HRaw (s : string)
| HNode (tag : string) (attrs : list (string * string)) (content : list html)
| HVoid (tag : string) (attrs : list (string * string)).

Definition attr_to_string (a : string * string) : string :=
  " " ++ a.1 ++ "=" ++ dq ++ a.2 ++ dq.

Definition attrs_to_string (attrs : list (string * string)) : string :=
  String.concat "" (map attr_to_string attrs).

Fixpoint to_string (h : html) : string :=
  match h with
  | HRaw s => s
  | HNode tag attrs content =>
      "<" ++ tag ++ attrs_to_string attrs ++ ">"
      ++ String.concat "" (map to_string content) ++ "</" ++ tag ++ ">"
  | HVoid tag attrs => "<" ++ tag ++ attrs_to_string attrs ++ "/>"
  end.

Definition forest_to_string (hs : list html) : string :=
  String.concat "" (map to_string hs).

(** Number of elements with tag [t] in a forest, and the number of
    those nested inside another one. *)
Fixpoint count_tag (t : string) (h : html) : nat :=
  match h with
  | HRaw _ => 0
  | HNode tag _ content =>
      (if Str.eqs tag t then 1 else 0)
      + fold_right (fun x acc => count_tag t x + acc) 0 content
  | HVoid tag _ => if Str.eqs tag t then 1 else 0
  end.

Definition count_tag_forest (t : string) (hs : list html) : nat :=
  fold_right (fun x acc => count_tag t x + acc) 0 hs.

(** Whether an element with tag [t] occurs strictly inside another
    element with tag [t]. *)
Fixpoint nested_tag (t : string) (h : html) : bool :=
  match h with
  | HRaw _ | HVoid _ _ => false
  | HNode tag _ content =>
      (Str.eqs tag t
       && existsb (fun x => Nat.ltb 0 (count_tag t x)) content)
      || existsb (nested_tag t) content
  end.

End Html.


(* ------------------------------------------------------------------ *)
(** ** Plain text of rendered markup ([extractTextFromHtml],
    [decodeHtmlEntities] of [structure_traversal.ts]) *)

Module Text.
Import Html.

Definition in_range (lo hi : nat) (c : ascii) : bool :=
  let n := nat_of_ascii c in (lo <=? n)%nat && (n <=? hi)%nat.

(** [[A-Za-z]] and [[0-9A-Fa-f]]. *)
Definition is_alpha (c : ascii) : bool := in_range 65 90 c || in_range 97 122 c.
Definition is_hex (c : ascii) : bool :=
  Str.is_digit c || in_range 65 70 c || in_range 97 102 c.

(** The longest prefix of characters satisfying [p], and the rest. *)
Fixpoint span (p : ascii -> bool) (s : string) : string * string :=
  match s with
  | String c r => if p c then let '(a, b) := span p r in (String c a, b) else ("", s)
  | EmptyString => ("", "")
  end.

(** The regular expression [/&(#x?[0-9A-Fa-f]+|[A-Za-z]+);/] tried at an
    ampersand, given the text after it: the captured [body] and the text
    after the semicolon. Both runs are maximal, and a shorter run is
    followed by a run character, not by [;], so backtracking finds no
    other match. *)
Definition semi (body r : string) : option (string * string) :=
  match r with
  | String c r' => if Ascii.eqb c ";" then Some (body, r') else None
  | EmptyString => None
  end.

Definition match_entity (s : string) : option (string * string) :=
  match s with
  | String h r =>
      if Ascii.eqb h "#" then
        let '(x, r1) :=
          match r with
          | String c r' =>
              if Ascii.eqb c "x" || Ascii.eqb c "X" then (String c "", r') else ("", r)
          | EmptyString => ("", r)
          end in
        let '(digits, r2) := span is_hex r1 in
        if Str.eqs digits "" then None else semi (String h (x ++ digits)) r2
      else if is_alpha h then
        let '(letters, r2) := span is_alpha s in semi letters r2
      else None
  | EmptyString => None
  end.

(** [parseInt(s, 16)] on a non-empty run of hexadecimal digits. *)
Definition hex_digit_value (c : ascii) : Z :=
  let n := Z.of_nat (nat_of_ascii c) in
  if Str.is_digit c then (n - 48)%Z
  else if in_range 65 70 c then (n - 55)%Z
  else (n - 87)%Z.

Fixpoint hex_value (s : string) (acc : Z) : Z :=
  match s with
  | String c r => hex_value r (acc * 16 + hex_digit_value c)%Z
  | EmptyString => acc
  end.

(** [String.fromCodePoint(n)] for [0 <= n <= 0x10FFFF], as a UTF-8
    string. *)
Definition fromCodePoint (n : Z) : string := Str.utf8 n.

(** The [named] table. *)
Definition named : list (string * string) :=
  [ ("nbsp", " "); ("amp", "&"); ("lt", "<"); ("gt", ">");
    ("quot", dq); ("apos", "'") ].

(** The replacement function for a match with captured [body]. *)
Definition replacement (body : string) : string :=
  let m := "&" ++ body ++ ";" in
  match body with
  | String h r =>
      if Ascii.eqb h "#" then
        let isHex := match r with
                     | String c _ => Ascii.eqb c "x" || Ascii.eqb c "X"
                     | EmptyString => false end in
        let num := if isHex then Some (hex_value (Str.slice1 r) 0)
                   else Str.parseInt r in
        match num with
        | Some n => if (0 <=? n)%Z && (n <=? 1114111)%Z then fromCodePoint n else m
        | None => m
        end
      else match Str.assoc (Str.toLowerCase body) named with
           | Some v => v
           | None => m
           end
  | EmptyString => m
  end.

(** The global replacement, left to right; each pass consumes at least
    one character, so [length s] passes reach the end. *)
Fixpoint decode_go (fuel : nat) (s : string) : string :=
  match fuel with
  | O => s
  | S f =>
      match s with
      | EmptyString => EmptyString
      | String c r =>
          if Ascii.eqb c "&" then
            match match_entity r with
            | Some (body, rest) => replacement body ++ decode_go f rest
            | None => String c (decode_go f r)
            end
          else String c (decode_go f r)
      end
  end.

Definition decodeHtmlEntities (text : string) : string :=
  decode_go (String.length text) text.

(** [s.indexOf(pat)] for a non-empty [pat]. *)
Fixpoint index_of (pat s : string) : option nat :=
  if String.prefix pat s then Some O
  else match s with
       | EmptyString => None
       | String _ r => option_map S (index_of pat r)
       end.

(** [s.slice(n)] and [s.slice(0, n)]. *)
Fixpoint drop (n : nat) (s : string) : string :=
  match n, s with
  | O, _ => s
  | S n', String _ r => drop n' r
  | S _, EmptyString => EmptyString
  end.

Fixpoint take (n : nat) (s : string) : string :=
  match n, s with
  | O, _ => EmptyString
  | S n', String c r => String c (take n' r)
  | S _, EmptyString => EmptyString
  end.

(** [t.split(/\s+/)[0]] for a trimmed [t]. *)
Fixpoint take_non_ws (l : list string) : list string :=
  match l with
  | ch :: r => if Str.is_ws ch then [] else ch :: take_non_ws r
  | [] => []
  end.

Definition first_token (t : string) : string :=
  Str.concat (take_non_ws (Str.chars t)).

(** The [while] loop of [extractTextFromHtml] on the text from index [i]
    on, with the output [out] so far; [break] returns [out]. Each pass
    consumes at least one character. *)
Fixpoint extract_go (fuel : nat) (s out : string) : string :=
  match fuel with
  | O => out
  | S f =>
      match s with
      | EmptyString => out
      | String c r =>
          if Ascii.eqb c "<" then
            if String.prefix "<!--" s then
              match index_of "-->" (drop 4 s) with
              | None => out
              | Some k => extract_go f (drop (k + 3) (drop 4 s)) out
              end
            else
              match index_of ">" r with
              | None => out
              | Some k =>
                  let tagText := Str.toLowerCase (Str.trim (take k r)) in
                  let after := drop (S k) r in
                  if String.prefix "script" tagText || String.prefix "style" tagText then
                    let closeTag := "</" ++ first_token tagText ++ ">" in
                    match index_of closeTag (Str.toLowerCase after) with
                    | None => out
                    | Some j => extract_go f (drop (j + String.length closeTag) after) out
                    end
                  else extract_go f after out
              end
          else extract_go f r (out ++ String c "")
      end
  end.

Definition extractTextFromHtml (html : string) : string :=
  if Str.eqs html "" then ""
  else decodeHtmlEntities (extract_go (String.length html) html "").

(** Whether a string contains the character [c]. *)
Fixpoint contains_char (c : ascii) (s : string) : bool :=
  match s with
  | EmptyString => false
  | String x r => Ascii.eqb x c || contains_char c r
  end.

(** Whether every character of a string satisfies [p]. *)
Fixpoint all_chars (p : ascii -> bool) (s : string) : bool :=
  match s with
  | EmptyString => true
  | String x r => p x && all_chars p r
  end.

End Text.

(* ------------------------------------------------------------------ *)
(** ** Rendering of the structure tree ([structure_traversal.ts]) *)

Module Render.
Import Roles Html Text.

(** JavaScript truthiness of an optional string: [undefined] and the
    empty string are falsy. *)
Definition truthy (o : option string) : option string :=
  match o with
  | Some s => if Str.eqs s "" then None else Some s
  | None => None
  end.

(** [a || d] on an optional number ([undefined] and [0] are falsy). *)
Definition num_or (o : option Z) (d : Z) : Z :=
  match o with
  | Some z => if (z =? 0)%Z then d else z
  | None => d
  end.

Definition opt_eqs (o : option string) (s : string) : bool :=
  match o with Some t => Str.eqs t s | None => false end.

(** [isHeadingRoleName]. *)
Definition isHeadingRoleName (role : option string) : bool :=
  match truthy role with
  | None => false
  | Some r =>
      if Str.eqs r "H" || Str.eqs r "Hn" || Str.eqs r "Title" then true
      else matches_H_backslash_d_plus r
  end.

(** [isInlineContext]. *)
Definition isInlineContext (parentRole : option string) : bool :=
  match truthy parentRole with
  | None => false
  | Some p =>
      if isHeadingRoleName parentRole then true
      else mem p
        [ "Span"; "Quote"; "Reference"; "BibEntry"; "Code"; "Link";
          "Annot"; "Ruby"; "RB"; "RT"; "RP"; "Warichu"; "WT"; "WP";
          "P"; "H"; "H1"; "H2"; "H3"; "H4"; "H5"; "H6";
          "Em"; "Strong"; "Sub"; "Sup"; "TH"; "TD" ]
  end.

(** [isMathMLTokenElement]. *)
Definition isMathMLTokenElement (tag : string) : bool :=
  if Str.eqs tag "" then false
  else mem (Str.toLowerCase tag) [ "mi"; "mn"; "mo"; "mtext"; "ms" ].

(** The cases of the [switch] of [mapRoleToTag] that return a constant. *)
Definition simple_tags : list (string * string) :=
  [ ("Document", "div"); ("Part", "div"); ("Sect", "section");
    ("Div", "div"); ("Art", "article"); ("Aside", "aside"); ("Note", "p");
    ("Index", "section"); ("NonStruct", "div"); ("Private", "div");
    ("Title", "h1"); ("FENote", "aside"); ("DocumentFragment", "div");
    ("P", "p"); ("H", "h2"); ("H1", "h1"); ("H2", "h2"); ("H3", "h3");
    ("H4", "h4"); ("H5", "h5"); ("H6", "h6"); ("BlockQuote", "blockquote");
    ("TOC", "ol"); ("TOCI", "li"); ("L", "ul"); ("LI", "li");
    ("Lbl", "span"); ("LBody", "div"); ("Table", "table"); ("TR", "tr");
    ("TH", "th"); ("TD", "td"); ("THead", "thead"); ("TBody", "tbody");
    ("TFoot", "tfoot"); ("Span", "span"); ("Quote", "q"); ("Code", "code");
    ("Em", "em"); ("Strong", "strong"); ("Sub", "sub"); ("Sup", "sup");
    ("Link", "a"); ("Reference", "a"); ("BibEntry", "p"); ("Ruby", "ruby");
    ("RB", "rb"); ("RT", "rt"); ("RP", "rp"); ("Warichu", "span");
    ("WT", "span"); ("WP", "span"); ("Annot", "span"); ("Form", "div") ].

(** [mapRoleToTag(role, parentRole)]. *)
Definition mapRoleToTag (role : string) (parentRole : option string) : string :=
  if Str.eqs role "P" && isHeadingRoleName parentRole then "span"
  else if Str.eqs role "Caption" then
    if opt_eqs parentRole "Table" then "caption"
    else if opt_eqs parentRole "Figure" || opt_eqs parentRole "Formula"
    then "figcaption" else "caption"
  else if Str.eqs role "Figure" || Str.eqs role "Formula" then
    if isInlineContext parentRole then "span" else "figure"
  else match Str.assoc role simple_tags with Some t => t | None => "div" end.

(** A bounding box [[x1, y1, x2, y2]] as returned by [getBBox] (numbers
    are integers in this model). *)
Abbreviation box := (list Z).

(** [TraversalContext]. Not modelled: [listHasLbl], which only reaches
    the [style] attribute and the list [start] and [type] attributes,
    and [idState], which only reaches generated [id] attributes (see
    [element_attrs]). [undefined] is [None], or [false] for the two
    flags, which are only tested for truthiness. *)
Record traversal_ctx := mkCtx {
  parentRole : option string;
  listNumbering : option string;
  bbox : option box;
  headingLevel : option Z;
  imageAlt : option string;
  preferVector : bool;
  mathmlTokenContext : bool
}.

Definition with_parentRole (p : option string) (c : traversal_ctx) :=
  mkCtx p (listNumbering c) (bbox c) (headingLevel c) (imageAlt c)
    (preferVector c) (mathmlTokenContext c).
Definition with_listNumbering (l : option string) (c : traversal_ctx) :=
  mkCtx (parentRole c) l (bbox c) (headingLevel c) (imageAlt c)
    (preferVector c) (mathmlTokenContext c).
Definition with_bbox (b : option box) (c : traversal_ctx) :=
  mkCtx (parentRole c) (listNumbering c) b (headingLevel c) (imageAlt c)
    (preferVector c) (mathmlTokenContext c).
Definition with_headingLevel (h : option Z) (c : traversal_ctx) :=
  mkCtx (parentRole c) (listNumbering c) (bbox c) h (imageAlt c)
    (preferVector c) (mathmlTokenContext c).
Definition with_imageAlt (a : option string) (c : traversal_ctx) :=
  mkCtx (parentRole c) (listNumbering c) (bbox c) (headingLevel c) a
    (preferVector c) (mathmlTokenContext c).
Definition with_preferVector (b : bool) (c : traversal_ctx) :=
  mkCtx (parentRole c) (listNumbering c) (bbox c) (headingLevel c) (imageAlt c)
    b (mathmlTokenContext c).
Definition with_mathmlTokenContext (b : bool) (c : traversal_ctx) :=
  mkCtx (parentRole c) (listNumbering c) (bbox c) (headingLevel c) (imageAlt c)
    (preferVector c) b.

(** The result of [getStructureAssociatedFiles]: the first
    [Alternative] file as markup, if any, and the [Supplement] files. *)
Record af_result := mkAF {
  replacement : option string;
  supplements : list string
}.

Definition no_af : af_result := mkAF None [].

(** The entries of a dictionary child that the traversal reads: [/Type],
    [/S], the namespace URI (as returned by [getNamespaceURI], the empty
    string when there is none), [/Pg] (a page reference, identified by a
    number), [/MCID] of a marked-content reference ([None] when absent
    or not an integer), the associated files [/AF] (as processed by
    [getStructureAssociatedFiles]), the [BBox] of [getBBox] on the
    attributes [/A], the text strings [/ID], [/Lang], [/ActualText],
    [/Alt], [/E] and [/T] (as stored in the file, before
    [stringToPDFString]), the [TextPosition] name of [getAttribute] on
    [/A], and the list numbering of [getListNumbering] on [/A] and the
    classes [/C]. The other uses of [/A] and [/C] (attribute, class and
    style strings) are not modelled, see [element_attrs]. *)
Record elem_info := mkElem {
  type : option string;
  sType : option string;
  namespaceURI : string;
  Pg : option Z;
  MCID : option Z;
  AF : af_result;
  BBox : option box;
  ID : option string;
  Lang : option string;
  ActualText : option string;
  Alt : option string;
  E : option string;
  T : option string;
  TextPosition : option string;
  ListNumbering : option string
}.

(** A [StructChild] after [fetchIfRef]: a number (a marked-content id),
    nothing usable ([null], [undefined], or an object that is not a
    dictionary), or a dictionary with its [/K] entry (absent, one child,
    or an array). *)
Inductive struct_child :=
| MCIDChild (mcid : Z)
| NoDict
| ElemChild (info : elem_info) (K : kids)
with kids :=
| KNone
| KOne (c : struct_child)
| KArray (cs : list struct_child).

Definition kids_list (k : kids) : list struct_child :=
  match k with KNone => [] | KOne c => [c] | KArray cs => cs end.

(** [!children] for a [/K] entry: absent, or the number [0]. *)
Definition kids_falsy (k : kids) : bool :=
  match k with
  | KNone => true
  | KOne (MCIDChild z) => (z =? 0)%Z
  | _ => false
  end.

(** [RenderedContent]. *)
Record rendered := mkRendered {
  r_html : list html;
  r_text : string;
  rootTag : option string
}.

Definition no_content : rendered := mkRendered [] "" None.

Definition MathML_NS := "http://www.w3.org/1998/Math/MathML".
Definition XHTML_NS := "http://www.w3.org/1999/xhtml".

Definition is_grouping (r : string) : bool :=
  mem r [ "Sect"; "Div"; "Art"; "Aside"; "Part"; "DocumentFragment" ].

Definition is_generic_heading (r : string) : bool :=
  Str.eqs r "H" || Str.eqs r "Hn" || Str.eqs r "Title".

(** The heading branch of [processStructElement]: the tag and the
    [aria-level] for a heading role, given the tag from [mapRoleToTag]. *)
Definition heading_tag (ctx : traversal_ctx) (mappedRole tag : string)
    : string * option Z :=
  let isExplicitHeading := matches_H_backslash_d_plus mappedRole in
  let isGenericHeading := is_generic_heading mappedRole in
  if isExplicitHeading || isGenericHeading then
    if opt_eqs (parentRole ctx) "TH" || opt_eqs (parentRole ctx) "TD"
    then ("p", None)
    else
      let dflt := num_or (headingLevel ctx) 2 in
      let level :=
        if Str.eqs mappedRole "Title" then Some 1%Z
        else if isExplicitHeading then Str.parseInt (Str.slice1 mappedRole)
        else Some dflt in
      let level :=
        match level with
        | None => dflt
        | Some l => if (l <=? 0)%Z then dflt else l
        end in
      if (level <=? 6)%Z then ("h" ++ pretty level, None)
      else ("p", Some level)
  else (tag, None).

(** The list branch of [processStructElement]: the tag and the context
    passed to the children. *)
Definition list_tag (info : elem_info) (nctx : traversal_ctx)
    (mappedRole tag : string) : string * traversal_ctx :=
  if Str.eqs mappedRole "L" then
    let ln := match truthy (ListNumbering info) with
              | Some l => l | None => "None" end in
    let tag := if Str.eqs ln "Description" then "dl"
               else if negb (Str.eqs ln "None") then "ol" else "ul" in
    (tag, with_listNumbering (Some ln) (with_parentRole (Some "L") nctx))
  else if Str.eqs mappedRole "TOC" then
    (tag, with_parentRole (Some "TOC") nctx)
  else if Str.eqs mappedRole "LI" then
    ((if opt_eqs (listNumbering nctx) "Description" then "div" else "li"),
     with_parentRole (Some "LI") nctx)
  else if Str.eqs mappedRole "Lbl" then
    ((if opt_eqs (parentRole nctx) "LI" then
        if opt_eqs (listNumbering nctx) "Description" then "dt" else "span"
      else if opt_eqs (parentRole nctx) "Form" then "label"
      else "span"), nctx)
  else if Str.eqs mappedRole "LBody" then
    ((if opt_eqs (parentRole nctx) "LI" then
        if opt_eqs (listNumbering nctx) "Description" then "dd" else "div"
      else "div"), nctx)
  else (tag, with_parentRole (Some mappedRole) nctx).

(** The [TextPosition] override (section 8.5.1 in the source comments). *)
Definition text_position_tag (info : elem_info) (mappedRole tag : string) : string :=
  if opt_eqs (TextPosition info) "Sup" then
    (if Str.eqs mappedRole "Sup" then tag else "sup")
  else if opt_eqs (TextPosition info) "Sub" then
    (if Str.eqs mappedRole "Sub" then tag else "sub")
  else tag.

(** From the namespace check to the [mathmlTokenContext] update of
    [processStructElement]: the tag, the mapped role, the heading
    [aria-level] and [newTraversalCtx], for an element whose [/S] is
    [sT]; [ctx] is [traversalCtx] and [nctx] the [newTraversalCtx] built
    before the check. *)
Definition classify (roleMap : role_map) (ctx nctx : traversal_ctx)
    (info : elem_info) (sT : string)
    : string * string * option Z * traversal_ctx :=
  let ns := namespaceURI info in
  let isMathML := Str.eqs ns MathML_NS in
  let '(tag, mappedRole, aria, nctx) :=
    if isMathML then (sT, sT, None, nctx)
    else if Str.eqs ns XHTML_NS then (Str.toLowerCase sT, sT, None, nctx)
    else
      let mappedRole := resolveRole sT roleMap ns in
      let tag := mapRoleToTag mappedRole (parentRole ctx) in
      let nctx :=
        if is_grouping mappedRole
        then with_headingLevel (Some (num_or (headingLevel ctx) 1 + 1)%Z) nctx
        else nctx in
      let '(tag, aria) := heading_tag ctx mappedRole tag in
      let '(tag, nctx) := list_tag info nctx mappedRole tag in
      (text_position_tag info mappedRole tag, mappedRole, aria, nctx) in
  (tag, mappedRole, aria,
   with_mathmlTokenContext (isMathML && isMathMLTokenElement tag) nctx).

(** The markup of the supplemental associated files. *)
Definition nl : string := String (ascii_of_nat 10) EmptyString.

Definition supplement_html (sups : list string) : list html :=
  match sups with
  | [] => []
  | _ => [HRaw (String.concat nl sups)]
  end.

Definition is_void (tag : string) : bool :=
  mem tag [ "img"; "br"; "hr"; "input" ].

(** The characters tested by [shouldInsertInlineSpace]. *)
Definition hasVisibleText (text : string) : bool :=
  existsb (fun ch => negb (Str.is_ws ch)) (Str.chars text).

Definition hasLeadingWhitespace (text : string) : bool :=
  match Str.chars text with ch :: _ => Str.is_ws ch | [] => false end.

Definition hasTrailingWhitespace (text : string) : bool :=
  match rev (Str.chars text) with ch :: _ => Str.is_ws ch | [] => false end.

Definition getFirstVisibleChar (text : string) : option string :=
  find (fun ch => negb (Str.is_ws ch)) (Str.chars text).

Definition getLastVisibleChar (text : string) : option string :=
  find (fun ch => negb (Str.is_ws ch)) (rev (Str.chars text)).

(** [/[...]/.test(ch)] for a character class of ASCII characters [set]. *)
Definition in_class (set : string) (ch : string) : bool :=
  match ch with
  | String c EmptyString => contains_char c set
  | _ => false
  end.

(** [isWordChar]: [/[A-Za-z0-9]/]. *)
Definition isWordChar (ch : string) : bool :=
  match ch with
  | String c EmptyString => is_alpha c || Str.is_digit c
  | _ => false
  end.

(** [shouldInsertInlineSpace]. *)
Definition shouldInsertInlineSpace (parentRole childRole : option string)
    (prevText nextText : string) (prevHadActualText nextHasActualText : bool)
    (nextRootTag : option string) : bool :=
  if negb (isInlineContext parentRole) then false
  else if Str.eqs prevText "" || Str.eqs nextText "" then false
  else if opt_eqs childRole "Sup" || opt_eqs childRole "Sub" then false
  else if opt_eqs nextRootTag "sup" || opt_eqs nextRootTag "sub" then false
  else if negb (hasVisibleText prevText) || negb (hasVisibleText nextText) then false
  else if hasTrailingWhitespace prevText || hasLeadingWhitespace nextText then false
  else
    match getLastVisibleChar prevText, getFirstVisibleChar nextText with
    | Some prevChar, Some nextChar =>
        let shouldConsider :=
          prevHadActualText || nextHasActualText || in_class ":;.!?" prevChar in
        if negb shouldConsider then false
        else if in_class ("([{" ++ dq ++ "'/-") prevChar then false
        else if in_class "])}.,;:!?%" nextChar then false
        else isWordChar nextChar
    | _, _ => false
    end.

Section Traversal.

Variable roleMap : role_map.

(** The markup and the text [fetchContentForMCID] returns for a page
    reference, a marked-content id, and the [bbox], [imageAlt],
    [preferVector] and [trimText] arguments; see [Extract] for its
    model. *)
Variable fetchContentForMCID :
  Z -> Z -> option box -> option string -> bool -> bool -> string * string.

(** [processOBJR] on a dictionary of [/Type /OBJR] (an annotation or a
    form field) with the inherited page reference. *)
Variable processOBJR : elem_info -> option Z -> rendered.

(** [stringToPDFString]: the text string of a PDF string object. *)
Variable stringToPDFString : string -> string.

(** [getElementInfo]: the resolved role of a child and whether its
    dictionary has an [/ActualText] entry. *)
Definition getElementInfo (c : struct_child) : option string * bool :=
  match c with
  | ElemChild info _ =>
      match truthy (sType info) with
      | Some s =>
          (Some (resolveRole s roleMap (namespaceURI info)),
           match ActualText info with Some _ => true | None => false end)
      | None => (None, false)
      end
  | _ => (None, false)
  end.

Definition child_role (c : struct_child) : option string := fst (getElementInfo c).

(** [hasLinkChild]: an immediate child whose role resolves to [Link]. *)
Definition hasLinkChild (K : kids) : bool :=
  existsb (fun c => opt_eqs (child_role c) "Link") (kids_list K).

(** [reorderCaptionElements] applied to the children paired with their
    rendering: captions first, the others after, each group in order. *)
Definition reorder_captions (l : list (struct_child * rendered))
    : list (struct_child * rendered) :=
  filter (fun p => opt_eqs (child_role p.1) "Caption") l
  ++ filter (fun p => negb (opt_eqs (child_role p.1) "Caption")) l.

(** One pass of the loop of [processChildren] over an array: [html],
    [text] and [lastChildHadActualText] before and after the child. *)
Definition children_step (ctx : traversal_ctx) (acc : list html * string * bool)
    (p : struct_child * rendered) : list html * string * bool :=
  let '(h, t, lastChildHadActualText) := acc in
  let '(child, childRendered) := p in
  let '(childRole, hasActualText) := getElementInfo child in
  if opt_eqs (parentRole ctx) "L" then
    if opt_eqs childRole "L" then
      (app h [HNode "li" [] (r_html childRendered)], t ++ r_text childRendered,
       hasActualText)
    else (app h (r_html childRendered), t ++ r_text childRendered, hasActualText)
  else
    let '(h, t) :=
      if shouldInsertInlineSpace (parentRole ctx) childRole t (r_text childRendered)
           lastChildHadActualText hasActualText (rootTag childRendered)
      then (app h [HRaw " "], t ++ " ") else (h, t) in
    (app h (r_html childRendered), t ++ r_text childRendered, hasActualText).

(** The attributes [processStructElement] writes itself, in order:
    [data-pdf-se-type], [data-pdf-se-type-original], the heading
    [role]/[aria-level], [id], [lang], [alt] and [title]. Not modelled:
    the attributes of [getHTMLAttributes] (written first, see [Attrs]),
    the generated [id] of an element without [/ID], pronunciation, list
    continuation, [start] and [type], [class] and [style]. *)
Definition element_attrs (info : elem_info) (sT mappedRole : string)
    (aria : option Z) : list (string * string) :=
  (if Str.eqs mappedRole "" then [] else [("data-pdf-se-type", escapeHtml mappedRole)])
  ++ (if Str.eqs sT mappedRole then [] else [("data-pdf-se-type-original", escapeHtml sT)])
  ++ (match aria with
      | Some l => [("role", "heading"); ("aria-level", pretty l)]
      | None => [] end)
  ++ (match truthy (ID info) with
      | Some i => [("id", escapeHtml (stringToPDFString i))] | None => [] end)
  ++ (match truthy (Lang info) with
      | Some l => [("lang", escapeHtml (stringToPDFString l))] | None => [] end)
  ++ (match truthy (Alt info) with
      | Some a => [("alt", escapeHtml (stringToPDFString a))] | None => [] end)
  ++ (match truthy (T info) with
      | Some t => [("title", escapeHtml (stringToPDFString t))] | None => [] end).

(** The attributes [processLink] writes itself ([href], a generated
    [id], pronunciation, [class] and [style] are not modelled). *)
Definition link_attrs (info : elem_info) (sT mappedRole : string)
    : list (string * string) :=
  (if Str.eqs mappedRole "" then [] else [("data-pdf-se-type", escapeHtml mappedRole)])
  ++ (if Str.eqs sT mappedRole then [] else [("data-pdf-se-type-original", escapeHtml sT)])
  ++ (match truthy (ID info) with
      | Some i => [("id", escapeHtml (stringToPDFString i))] | None => [] end)
  ++ (match truthy (Lang info) with
      | Some l => [("lang", escapeHtml (stringToPDFString l))] | None => [] end)
  ++ (match truthy (T info) with
      | Some t => [("title", escapeHtml (stringToPDFString t))] | None => [] end).

(** The [/E] expansion: [<abbr title="...">content</abbr>]. *)
Definition wrap_abbr (info : elem_info) (content : list html) : list html :=
  match truthy (E info) with
  | Some e => [HNode "abbr" [("title", escapeHtml (stringToPDFString e))] content]
  | None => content
  end.

(** [processStructElement] and [processChildren]. The children of an
    array are rendered first and then put in caption-first order: the
    rendering of a child does not depend on its siblings, so this is the
    output of the source loop over the reordered array. *)
Fixpoint processStructElement (ctx : traversal_ctx) (pg : option Z)
    (c : struct_child) {struct c} : rendered :=
  match c with
  | NoDict => no_content
  | MCIDChild n =>
      match pg with
      | Some p =>
          let '(h, t) := fetchContentForMCID p n (bbox ctx) (imageAlt ctx)
                           (preferVector ctx) (mathmlTokenContext ctx) in
          mkRendered [HRaw h] t None
      | None => mkRendered [HRaw ("<!-- MCID " ++ pretty n ++ " (No Page) -->")] "" None
      end
  | ElemChild info K =>
      let pg := match Pg info with Some p => Some p | None => pg end in
      if opt_eqs (type info) "MCR" then
        (* processMCR *)
        match MCID info, pg with
        | Some n, Some p =>
            let '(h, t) := fetchContentForMCID p n (bbox ctx) (imageAlt ctx)
                             (preferVector ctx) (mathmlTokenContext ctx) in
            mkRendered [HRaw h] t None
        | _, _ => no_content
        end
      else if opt_eqs (type info) "OBJR" then processOBJR info pg
      else
      let sups := supplement_html (supplements (AF info)) in
      match replacement (AF info) with
      | Some rep => mkRendered (HRaw rep :: sups) (extractTextFromHtml rep) None
      | None =>
      let nctx := with_bbox (match BBox info with Some b => Some b | None => bbox ctx end) ctx in
      match truthy (sType info) with
      | None =>
          let r := processChildren nctx pg K in
          mkRendered (app (r_html r) sups) (r_text r) None
      | Some sT =>
          let '(tag, mappedRole, aria, nctx) := classify roleMap ctx nctx info sT in
          if Str.eqs mappedRole "Reference" && hasLinkChild K then
            if kids_falsy K then no_content
            else processChildren (with_parentRole (parentRole ctx) nctx) pg K
          else if Str.eqs mappedRole "Link" then
            (* processLink *)
            let lrole := resolveRole sT roleMap (namespaceURI info) in
            let '(content, contentText) :=
              match truthy (ActualText info) with
              | Some a => ([HRaw (escapeHtml (stringToPDFString a))], stringToPDFString a)
              | None => let r := processChildren nctx pg K in (r_html r, r_text r)
              end in
            mkRendered [HNode "a" (link_attrs info sT lrole) (wrap_abbr info content)]
              contentText (Some "a")
          else
            let attrs := element_attrs info sT mappedRole aria in
            let isFigure := Str.eqs mappedRole "Figure" || Str.eqs mappedRole "Formula" in
            let nctx := if isFigure then with_preferVector true nctx else nctx in
            let nctx :=
              match truthy (Alt info) with
              | Some a =>
                  if isFigure && negb (Str.eqs (stringToPDFString a) "")
                  then with_imageAlt (Some (stringToPDFString a)) nctx else nctx
              | None => nctx
              end in
            let '(content, contentText) :=
              match truthy (ActualText info) with
              | Some a => ([HRaw (escapeHtml (stringToPDFString a))], stringToPDFString a)
              | None => let r := processChildren nctx pg K in (r_html r, r_text r)
              end in
            let content := app (wrap_abbr info content) sups in
            if Str.eqs mappedRole "NonStruct" then mkRendered content contentText None
            else if Str.eqs mappedRole "Private" || Str.eqs mappedRole "Artifact"
            then no_content
            else if is_void tag then mkRendered [HVoid tag attrs] "" (Some tag)
            else mkRendered [HNode tag attrs content] contentText (Some tag)
      end
      end
  end
with processChildren (ctx : traversal_ctx) (pg : option Z) (k : kids)
    {struct k} : rendered :=
  if kids_falsy k then no_content else
  match k with
  | KNone => no_content
  | KOne c =>
      let r := processStructElement ctx pg c in mkRendered (r_html r) (r_text r) None
  | KArray cs =>
      let renderedChildren :=
        (fix go (l : list struct_child) : list (struct_child * rendered) :=
           match l with
           | [] => []
           | c :: r => (c, processStructElement ctx pg c) :: go r
           end) cs in
      let '(h, t, _) :=
        fold_left (children_step ctx) (reorder_captions renderedChildren) ([], "", false) in
      mkRendered h t None
  end.

(** [traverseStructure]: the children [/K] of the structure tree root,
    rendered with heading level 1 and no page; the result is the markup
    string alone. [None] is a document without a structure tree. *)
Definition root_ctx : traversal_ctx := mkCtx None None None (Some 1%Z) None false false.

Definition traverseStructure (root : option kids) : string :=
  match root with
  | None => ""
  | Some k => forest_to_string (r_html (processChildren root_ctx None k))
  end.

End Traversal.

End Render.


(* ------------------------------------------------------------------ *)
(** ** Per-page content extraction ([content_extractor.ts]) and the
       rendering of a marked-content leaf ([fetchContentForMCID]) *)

Module Extract.
Import Html.

(** [MarkedContentProps]. *)
Record mc_props := mkProps {
  pLang : option string;
  pActualText : option string;
  pAlt : option string;
  pE : option string
}.

(** [ExtractedImage]: an XObject image by name, or inline image data. *)
Inductive extracted_image :=
| XObjectImage (name : string)
| InlineImage.

(** The properties operand of a [BDC] operator: a number (the MCID) or a
    property dictionary with its [/MCID], [/Lang], [/ActualText], [/Alt]
    and [/E] entries. *)
Inductive bdc_props :=
| PropsNumber (mcid : Z)
| PropsDict (mcid : option Z) (lang actualText alt e : option string).

(** The operators of the page operator list, as far as [extractOperators]
    tells them apart; [OpOther fn] is any other operator, with its
    [OPS] code. *)
Inductive op :=
| OpBeginMarkedContentProps (tag : string) (props : bdc_props)
| OpBeginMarkedContent
| OpEndMarkedContent
| OpPaintImageXObject (name : string)
| OpPaintInlineImageXObject
| OpPaintXObject (name : string)
| OpOther (fn : Z).

(** The tables of a [ContentExtractor] that the traversal reads. *)
Record extractor := mkExtractor {
  mcidToText : gmap Z string;
  mcidToImages : gmap Z (list extracted_image);
  mcidToOps : gmap Z (list op);
  mcidToProps : gmap Z mc_props
}.

Definition getText (ex : extractor) (mcid : Z) : string :=
  match mcidToText ex !! mcid with
  | Some s => if Str.eqs s "" then "" else s
  | None => ""
  end.

Definition getImages (ex : extractor) (mcid : Z) : list extracted_image :=
  match mcidToImages ex !! mcid with Some l => l | None => [] end.

Definition getOperators (ex : extractor) (mcid : Z) : list op :=
  match mcidToOps ex !! mcid with Some l => l | None => [] end.

Definition getProperties (ex : extractor) (mcid : Z) : option mc_props :=
  mcidToProps ex !! mcid.

(** The stack of active MCID lists ([stack.push] appends). *)
Abbreviation mc_stack := (list (list Z)).

Definition active_mcids (stack : mc_stack) : list Z := concat stack.

(** [recordImage] and [recordOp]: append to the list of every active
    MCID, bottom of the stack first. *)
Definition push_to {A} (m : gmap Z (list A)) (mcid : Z) (x : A) : gmap Z (list A) :=
  <[mcid := app (match m !! mcid with Some l => l | None => [] end) [x]]> m.

Definition recordImage (stack : mc_stack) (img : extracted_image)
    (ex : extractor) : extractor :=
  mkExtractor (mcidToText ex)
    (fold_left (fun m mcid => push_to m mcid img) (active_mcids stack)
       (mcidToImages ex))
    (mcidToOps ex) (mcidToProps ex).

Definition recordOp (stack : mc_stack) (o : op) (ex : extractor) : extractor :=
  mkExtractor (mcidToText ex) (mcidToImages ex)
    (fold_left (fun m mcid => push_to m mcid o) (active_mcids stack)
       (mcidToOps ex))
    (mcidToProps ex).

Definition truthy := Render.truthy.

(** The [contentProps] object built for a property dictionary, and
    whether it has at least one key. *)
Definition content_props (lang actualText alt e : option string) : mc_props :=
  mkProps (truthy lang) (truthy actualText) (truthy alt) (truthy e).

Definition props_nonempty (p : mc_props) : bool :=
  match pLang p, pActualText p, pAlt p, pE p with
  | None, None, None, None => false
  | _, _, _, _ => true
  end.

Definition set_props (ex : extractor) (mcid : Z) (p : mc_props) : extractor :=
  mkExtractor (mcidToText ex) (mcidToImages ex) (mcidToOps ex)
    (<[mcid := p]> (mcidToProps ex)).

(** One iteration of the operator loop of [extractOperators]. *)
Definition extract_step (st : mc_stack * extractor) (o : op)
    : mc_stack * extractor :=
  let '(stack, ex) := st in
  match o with
  | OpBeginMarkedContentProps _ (PropsNumber mcid) =>
      (app stack [[mcid]], ex)
  | OpBeginMarkedContentProps _ (PropsDict None _ _ _ _) =>
      (app stack [[]], ex)
  | OpBeginMarkedContentProps _ (PropsDict (Some mcid) lang atext alt e) =>
      let cp := content_props lang atext alt e in
      let ex := if props_nonempty cp then set_props ex mcid cp else ex in
      (app stack [[mcid]], ex)
  | OpBeginMarkedContent => (app stack [[]], ex)
  | OpEndMarkedContent => (removelast stack, ex)
  | OpPaintImageXObject name =>
      (stack, recordOp stack o (recordImage stack (XObjectImage name) ex))
  | OpPaintInlineImageXObject =>
      (stack, recordOp stack o (recordImage stack InlineImage ex))
  | OpPaintXObject name =>
      (stack, recordOp stack o (recordImage stack (XObjectImage name) ex))
  | OpOther _ => (stack, recordOp stack o ex)
  end.

(** The operator loop of [extractOperators], from an empty stack. *)
Definition extractOperators (ops : list op) (ex : extractor) : extractor :=
  snd (fold_left extract_step ops ([], ex)).

(** [hasVectorOperators]: a path construction or painting operator
    ([OPS] codes 13 to 28, or 91). The image and XObject painting
    operators have other codes. *)
Definition is_vector_op (o : op) : bool :=
  match o with
  | OpOther fn => ((13 <=? fn) && (fn <=? 28))%Z || (fn =? 91)%Z
  | _ => false
  end.

Definition hasVectorOperators (ex : extractor) (mcid : Z) : bool :=
  existsb is_vector_op (getOperators ex mcid).

(** [splitEdgeWhitespace]: the white-space characters at the start,
    the middle part, and the white-space characters at the end (none
    when the text is all white space). *)
Definition splitEdgeWhitespace (text : string) : string * string * string :=
  let '(leading, rest) := Str.span_ws (Str.chars text) in
  let '(trail_rev, core_rev) := Str.span_ws (rev rest) in
  (Str.concat leading, Str.concat (rev core_rev), Str.concat (rev trail_rev)).

Section Fetch.

(** The markup written for one image given the [bbox] and [imageAlt]
    arguments (data URI conversion, sizes and the alt attribute), and
    the SVG produced from vector operators ([None] when
    [renderVectorGraphics] throws). *)
Variable image_html : option Render.box -> option string -> extracted_image -> string.
Variable renderVectorGraphics : list op -> option string.

(** [fetchContentForMCID] once the page extractor is available, with
    [pageIndex = -1] standing for a page reference not found. Returns
    the markup and the plain text. *)
Definition fetchContentForMCID (pageIndex : Z) (ex : extractor) (mcid : Z)
    (bbox : option Render.box) (imageAlt : option string)
    (preferVector trimText : bool) : string * string :=
  if (pageIndex =? -1)%Z then ("", "") else
  let images := getImages ex mcid in
  let html := String.concat "" (map (image_html bbox imageAlt) images) in
  let hasImages := negb (length images =? 0)%nat in
  let props := getProperties ex mcid in
  let rawText :=
    match props with
    | Some p => match truthy (pActualText p) with
                | Some a => a
                | None => getText ex mcid end
    | None => getText ex mcid
    end in
  let '(rawLeading, rawCore, rawTrailing) := splitEdgeWhitespace rawText in
  let leadingWhitespace := if trimText then "" else rawLeading in
  let trailingWhitespace := if trimText then "" else rawTrailing in
  let renderedText := if trimText then rawCore else rawText in
  let escapedLeading := escapeHtml leadingWhitespace in
  let escapedCore := escapeHtml rawCore in
  let escapedTrailing := escapeHtml trailingWhitespace in
  let escapedText := escapeHtml renderedText in
  let hasVector :=
    match bbox with Some _ => hasVectorOperators ex mcid | None => false end in
  let suppressText := preferVector && negb hasImages && hasVector in
  let propLang := match props with Some p => truthy (pLang p) | None => None end in
  let propAlt := match props with Some p => truthy (pAlt p) | None => None end in
  let '(html, text) :=
    if negb (Str.eqs escapedText "") && negb suppressText then
      match propLang with
      | Some l =>
          (html ++ escapedLeading ++ "<span lang=" ++ dq ++ escapeHtml l ++ dq
           ++ match propAlt with
              | Some a => " title=" ++ dq ++ escapeHtml a ++ dq
              | None => "" end
           ++ ">" ++ escapedCore ++ "</span>" ++ escapedTrailing, renderedText)
      | None => (html ++ escapedLeading ++ escapedCore ++ escapedTrailing, renderedText)
      end
    else match propAlt with
         | Some a =>
             if Str.eqs escapedText "" then
               (html ++ "<span title=" ++ dq ++ escapeHtml a ++ dq ++ "></span>", "")
             else (html, "")
         | None => (html, "")
         end in
  let html :=
    if negb hasImages && hasVector && (preferVector || Str.eqs escapedText "") then
      let operators := getOperators ex mcid in
      if negb (length operators =? 0)%nat then
        match renderVectorGraphics operators with
        | Some svg => html ++ svg
        | None => html ++ "<span data-pdf-vector=" ++ dq ++ "true" ++ dq
                       ++ ">[Vector Graphic]</span>"
        end
      else html
    else html in
  (html, text).

End Fetch.

End Extract.

(* ------------------------------------------------------------------ *)
(** ** Attribute objects and the attribute cascades ([attribute_mapper.ts]) *)

Module Attrs.

(** A value read from an attribute dictionary (numbers are integers in
    this model). *)
Inductive pdf_value :=
| VName (n : string)
| VNum (z : Z)
| VStr (s : string)
| VBool (b : bool)
| VArr (l : list pdf_value).

(** An attribute dictionary: its entries in key order ([getKeys]). *)
Record attr_dict := mkAttr { entries : list (string * pdf_value) }.

Fixpoint lookup_entry (k : string) (l : list (string * pdf_value)) : option pdf_value :=
  match l with
  | [] => None
  | (k', v) :: r => if Str.eqs k k' then Some v else lookup_entry k r
  end.

(** [attrDict.get(key)]; [None] is [undefined]. *)
Definition get (d : attr_dict) (k : string) : option pdf_value :=
  lookup_entry k (entries d).

(** [(value as Name | undefined)?.name]. *)
Definition name_of (o : option pdf_value) : option string :=
  match o with Some (VName n) => Some n | _ => None end.

(** [String(value)] and template interpolation. *)
Fixpoint js_String (v : pdf_value) : string :=
  match v with
  | VName _ => "[object Object]"
  | VNum z => pretty z
  | VStr s => s
  | VBool b => if b then "true" else "false"
  | VArr l => String.concat "," (map js_String l)
  end.

(** JavaScript truthiness of a value. *)
Definition truthy_value (o : option pdf_value) : bool :=
  match o with
  | None => false
  | Some (VNum z) => negb (z =? 0)%Z
  | Some (VStr s) => negb (Str.eqs s "")
  | Some (VBool b) => b
  | Some _ => true
  end.

(** [a || b] on values. *)
Definition value_or (a b : option pdf_value) : option pdf_value :=
  if truthy_value a then a else b.

Definition starts_with (p s : string) : bool := String.prefix p s.

(** A JavaScript [Map<string, string>] in insertion order: [set] replaces
    the value of an existing key in place, or appends a new key. *)
Abbreviation js_map := (list (string * string)).

Fixpoint map_set (m : js_map) (k v : string) : js_map :=
  match m with
  | [] => [(k, v)]
  | (k', v') :: r => if Str.eqs k k' then (k, v) :: r else (k', v') :: map_set r k v
  end.

Fixpoint map_get (m : js_map) (k : string) : option string :=
  match m with
  | [] => None
  | (k', v) :: r => if Str.eqs k k' then Some v else map_get r k
  end.

(** The value of the last write to key [k] in a sequence of writes. *)
Fixpoint last_write (k : string) (ws : list (string * string)) : option string :=
  match ws with
  | [] => None
  | (k', v) :: r =>
      match last_write k r with
      | Some x => Some x
      | None => if Str.eqs k k' then Some v else None
      end
  end.

(** A sequence of [cssMap.set] / [attrMap.set] calls. *)
Definition apply_writes (m : js_map) (ws : list (string * string)) : js_map :=
  fold_left (fun m w => map_set m w.1 w.2) ws m.

Definition when {A} (b : bool) (l : list A) : list A := if b then l else [].

Definition px (v : pdf_value) : string := js_String v ++ "px".

(** The [cssMap.set] calls of [processLayoutCSSProperties] for one
    dictionary, in program order. Not modelled: the colour properties
    [BackgroundColor], [BorderColor], [Color] and [TextDecorationColor]
    (through [parseColor]), and the [width] and [height] set from a
    four-number [BBox] just before [Width] and [Height] (which write the
    same keys, and replace those values when present). *)
Definition layout_css_writes (d : attr_dict) : list (string * string) :=
  let borderStyle := value_or (get d "BorderStyle") (get d "TBorderStyle") in
  let padding := value_or (get d "Padding") (get d "TPadding") in
  let lineHeight := get d "LineHeight" in
  let placement := name_of (get d "Placement") in
  let writingMode := name_of (get d "WritingMode") in
  let textDeco := name_of (get d "TextDecorationType") in
  let rubyAlign := name_of (get d "RubyAlign") in
  let rubyPosition := name_of (get d "RubyPosition") in
  (match borderStyle with
   | Some v => when (truthy_value borderStyle)
       [("border-style", Str.toLowerCase (match v with VName n => n | _ => js_String v end))]
   | None => [] end)
  ++ (match get d "BorderThickness" with Some v => [("border-width", px v)] | None => [] end)
  ++ (match padding with Some v => [("padding", px v)] | None => [] end)
  ++ (match name_of (get d "TextAlign") with
      | Some n => when (negb (Str.eqs n "")) [("text-align", Str.toLowerCase n)]
      | None => [] end)
  ++ (match get d "TextIndent" with Some v => [("text-indent", px v)] | None => [] end)
  ++ (match lineHeight with
      | Some v => when (truthy_value lineHeight)
          [("line-height", match v with
                           | VName n => n
                           | VNum z => pretty z ++ "pt"
                           | _ => js_String v end)]
      | None => [] end)
  ++ (match get d "SpaceBefore" with
      | Some v => [("display", "block"); ("margin-top", px v)] | None => [] end)
  ++ (match get d "SpaceAfter" with
      | Some v => [("display", "block"); ("margin-bottom", px v)] | None => [] end)
  ++ (match get d "StartIndent" with
      | Some v => [("display", "block"); ("margin-left", px v)] | None => [] end)
  ++ (match get d "EndIndent" with
      | Some v => [("display", "block"); ("margin-right", px v)] | None => [] end)
  ++ (match get d "Width" with Some v => [("width", px v)] | None => [] end)
  ++ (match get d "Height" with Some v => [("height", px v)] | None => [] end)
  ++ (match placement with
      | Some p =>
          if Str.eqs p "Block" then [("display", "block")]
          else if Str.eqs p "Inline" then [("display", "inline")]
          else if Str.eqs p "Before" then [("float", "left"); ("clear", "both")]
          else if Str.eqs p "Start" then [("float", "left")]
          else if Str.eqs p "End" then [("float", "right")]
          else []
      | None => [] end)
  ++ (match writingMode with
      | Some w =>
          if Str.eqs w "TbRl" then [("writing-mode", "vertical-rl")]
          else if Str.eqs w "LrTb" || Str.eqs w "RlTb"
          then [("writing-mode", "horizontal-tb")] else []
      | None => [] end)
  ++ (match get d "BaselineShift" with
      | Some v => [("vertical-align", px v)] | None => [] end)
  ++ (match textDeco with
      | Some t =>
          if Str.eqs t "Underline" then [("text-decoration", "underline")]
          else if Str.eqs t "LineThrough" then [("text-decoration", "line-through")]
          else if Str.eqs t "Overline" then [("text-decoration", "overline")]
          else if Str.eqs t "None" then [("text-decoration", "none")]
          else []
      | None => [] end)
  ++ (match rubyAlign with
      | Some r => when (negb (Str.eqs r ""))
          [("ruby-align",
            if Str.eqs r "Start" then "start"
            else if Str.eqs r "Center" then "center"
            else if Str.eqs r "End" then "end"
            else if Str.eqs r "Justify" then "space-between"
            else if Str.eqs r "Distribute" then "space-around"
            else "auto")]
      | None => [] end)
  ++ (match rubyPosition with
      | Some r =>
          if Str.eqs r "Before" then [("ruby-position", "over")]
          else if Str.eqs r "After" then [("ruby-position", "under")]
          else []
      | None => [] end).

(** The [list-style-type] values of [processCSSFromList]. *)
Definition list_style_types : list (string * string) :=
  [ ("Disc", "disc"); ("Circle", "circle"); ("Square", "square");
    ("Decimal", "decimal"); ("UpperRoman", "upper-roman");
    ("LowerRoman", "lower-roman"); ("UpperAlpha", "upper-alpha");
    ("LowerAlpha", "lower-alpha") ].

(** The [cssMap.set] calls of [processCSSFromList] for one dictionary. *)
Definition list_css_writes (d : attr_dict) : list (string * string) :=
  (match get d "StartIndent" with Some v => [("margin-left", px v)] | None => [] end)
  ++ (match name_of (get d "ListNumbering") with
      | Some l =>
          match Str.assoc l list_style_types with
          | Some st => [("list-style-type", st)] | None => [] end
      | None => [] end).

(** The owner categories of attribute dictionaries. *)
Inductive category := CList | CTable | CLayout | CHTML | CCSS | CARIA | CUnknown.

Definition owner (d : attr_dict) : option string := name_of (get d "O").

(** The classification of [getCSSProperties] (no HTML or ARIA group:
    such dictionaries fall into the unknown group). *)
Definition css_category (d : attr_dict) : category :=
  match owner d with
  | Some o =>
      if Str.eqs o "List" then CList
      else if Str.eqs o "Table" then CTable
      else if Str.eqs o "Layout" then CLayout
      else if starts_with "CSS" o then CCSS
      else CUnknown
  | None => CUnknown
  end.

(** The classification of [getHTMLAttributes]. *)
Definition html_category (d : attr_dict) : category :=
  match owner d with
  | Some o =>
      if Str.eqs o "List" then CList
      else if Str.eqs o "Table" then CTable
      else if Str.eqs o "Layout" then CLayout
      else if starts_with "HTML" o then CHTML
      else if starts_with "CSS" o then CCSS
      else if Str.eqs o "ARIA" || starts_with "ARIA" o then CARIA
      else CUnknown
  | None => CUnknown
  end.

Definition is_cat (c : category) (c' : category) : bool :=
  match c, c' with
  | CList, CList | CTable, CTable | CLayout, CLayout | CHTML, CHTML
  | CCSS, CCSS | CARIA, CARIA | CUnknown, CUnknown => true
  | _, _ => false
  end.

Definition of_cat (cat : attr_dict -> category) (c : category)
    (ds : list attr_dict) : list attr_dict :=
  filter (fun d => is_cat c (cat d)) ds.

(** The order in which [getCSSProperties] processes the dictionaries:
    List, then Table and unknown owners, then Layout, then CSS. *)
Definition css_order (ds : list attr_dict) : list attr_dict :=
  of_cat css_category CList ds
  ++ (of_cat css_category CTable ds ++ of_cat css_category CUnknown ds)
  ++ of_cat css_category CLayout ds
  ++ of_cat css_category CCSS ds.

(** The writes of one dictionary in the CSS cascade: List dictionaries
    through [processCSSFromList], Layout and CSS ones through
    [processLayoutCSSProperties]; [processCSSFromTable] writes nothing. *)
Definition css_writes (d : attr_dict) : list (string * string) :=
  match css_category d with
  | CList => list_css_writes d
  | CLayout | CCSS => layout_css_writes d
  | _ => []
  end.

(** The final [cssMap] of [getCSSProperties]. *)
Definition cssMap (ds : list attr_dict) : js_map :=
  fold_left (fun m d => apply_writes m (css_writes d)) (css_order ds) [].

(** [getCSSProperties]: [attributes] absent is the empty list. *)
Definition getCSSProperties (ds : list attr_dict) : string :=
  String.concat "" (map (fun kv => kv.1 ++ ": " ++ kv.2 ++ "; ") (cssMap ds)).

(** The [attrMap.set] calls of the processors of [getHTMLAttributes]. *)
Definition html_writes (d : attr_dict) : list (string * string) :=
  match html_category d with
  | CList =>
      match name_of (get d "ListNumbering") with
      | Some l => when (negb (Str.eqs l ""))
                   [("data-list-numbering", Str.toLowerCase l)]
      | None => [] end
  | CTable | CUnknown =>
      (match get d "ColSpan" with
       | Some v => when (truthy_value (Some v)) [("colspan", js_String v)]
       | None => [] end)
      ++ (match get d "RowSpan" with
          | Some v => when (truthy_value (Some v)) [("rowspan", js_String v)]
          | None => [] end)
      ++ (match get d "Headers" with
          | Some v => when (truthy_value (Some v))
              [("headers", match v with
                           | VArr l => String.concat " " (map js_String l)
                           | _ => js_String v end)]
          | None => [] end)
      ++ (match name_of (get d "Scope") with
          | Some sc => when (negb (Str.eqs sc "")) [("scope", Str.toLowerCase sc)]
          | None => [] end)
      ++ (match get d "Short" with
          | Some v => when (truthy_value (Some v)) [("abbr", js_String v)]
          | None => [] end)
      ++ (match get d "Summary" with
          | Some v => when (truthy_value (Some v)) [("abbr", js_String v)]
          | None => [] end)
  | CLayout =>
      match name_of (get d "Placement") with
      | Some p => when (negb (Str.eqs p "")) [("data-placement", Str.toLowerCase p)]
      | None => [] end
  | CHTML =>
      flat_map (fun kv => if Str.eqs kv.1 "O" then []
                          else [("data-html-" ++ Str.toLowerCase kv.1, js_String kv.2)])
        (entries d)
  | CCSS => []
  | CARIA =>
      flat_map (fun kv => if Str.eqs kv.1 "O" then []
                          else [((if starts_with "aria-" kv.1 then kv.1
                                  else "aria-" ++ Str.toLowerCase kv.1), js_String kv.2)])
        (entries d)
  end.

(** The processing order of [getHTMLAttributes]: List, Table and
    unknown, Layout, HTML, CSS, ARIA. *)
Definition html_order (ds : list attr_dict) : list attr_dict :=
  of_cat html_category CList ds
  ++ (of_cat html_category CTable ds ++ of_cat html_category CUnknown ds)
  ++ of_cat html_category CLayout ds
  ++ of_cat html_category CHTML ds
  ++ of_cat html_category CCSS ds
  ++ of_cat html_category CARIA ds.

Definition attrMap (ds : list attr_dict) : js_map :=
  fold_left (fun m d => apply_writes m (html_writes d)) (html_order ds) [].

(** [getHTMLAttributes]: each entry written as [ key="value"], the value
    as it is. *)
Definition getHTMLAttributes (ds : list attr_dict) : string :=
  String.concat "" (map (fun kv => " " ++ kv.1 ++ "=" ++ Html.dq ++ kv.2 ++ Html.dq)
                        (attrMap ds)).

End Attrs.

(* ------------------------------------------------------------------ *)
(** ** The body part of [convertToHTML] ([converter.ts]) *)

Module Convert.

(** The JavaScript values the converter handles here. *)
Inductive jsval :=
| JUndefined
| JNumber (z : Z)
| JString (s : string)
| JObject (props : list (string * jsval)).

(** A property read either yields a value or throws a [TypeError]. *)
Inductive result (A : Type) := Ok (a : A) | TypeError.
Arguments Ok {A} a.
Arguments TypeError {A}.

Fixpoint lookup_prop (k : string) (ps : list (string * jsval)) : jsval :=
  match ps with
  | [] => JUndefined
  | (k', v) :: r => if Str.eqs k k' then v else lookup_prop k r
  end.

(** [v[k]] (and the property reads of object destructuring). Reading a
    property of [undefined] throws. A string primitive has [length] and
    its indices, plus the members of [String.prototype]; the keys the
    converter reads ([html], [structureMap], [size]) are none of them. *)
Definition get_prop (v : jsval) (k : string) : result jsval :=
  match v with
  | JUndefined => TypeError
  | JNumber _ => Ok JUndefined
  | JString s =>
      if Str.eqs k "length" then Ok (JNumber (Z.of_nat (String.length s)))
      else Ok JUndefined
  | JObject ps => Ok (lookup_prop k ps)
  end.

(** [String(v)] as used by [html += v]. *)
Definition to_js_string (v : jsval) : string :=
  match v with
  | JUndefined => "undefined"
  | JNumber z => pretty z
  | JString s => s
  | JObject _ => "[object Object]"
  end.

(** From [const { html: bodyContent, structureMap } = await
    traverseStructure(context)] to the test [structureMap.size > 0]:
    the markup appended to the page after [<body>]. The serialized
    structure map, appended when the test holds, is not modelled. *)
Definition convert_body (roleMap : Roles.role_map)
    (fetchContentForMCID :
       Z -> Z -> option Render.box -> option string -> bool -> bool -> string * string)
    (processOBJR : Render.elem_info -> option Z -> Render.rendered)
    (stringToPDFString : string -> string)
    (root : option Render.kids) : result string :=
  let v := JString (Render.traverseStructure roleMap fetchContentForMCID processOBJR
                      stringToPDFString root) in
  match get_prop v "html", get_prop v "structureMap" with
  | Ok bodyContent, Ok structureMap =>
      let out := to_js_string bodyContent in
      match get_prop structureMap "size" with
      | Ok _ => Ok out
      | TypeError => TypeError
      end
  | _, _ => TypeError
  end.

End Convert.

(* ------------------------------------------------------------------ *)
(** ** Notions used to state properties *)

Module Spec.
Import Roles Render Html.

(** The explicit heading pattern in the words of the specification: the
    letter H followed by one or more decimal digits. *)
Fixpoint all_digits (s : string) : bool :=
  match s with
  | EmptyString => true
  | String c r => Str.is_digit c && all_digits r
  end.

Definition spec_explicit_heading (s : string) : bool :=
  match s with
  | String h (String d r) => Ascii.eqb h "H"%char && Str.is_digit d && all_digits r
  | _ => false
  end.

(** The standard-type set as the specification describes it: the names
    of [standardTypes], [Hn], and the explicit heading pattern. *)
Definition spec_standard_type (s : string) : bool :=
  mem s standardTypes || Str.eqs s "Hn" || spec_explicit_heading s.

(** A structure element with type [s], default namespace, no page and no
    other entries, with children [k]. *)
Definition el (s : string) (k : kids) : struct_child :=
  ElemChild (mkElem None (Some s) "" None None no_af None None None None None
               None None None None) k.

(** Closed arguments for examples: no page content, no annotations,
    and PDF strings that are their own text. *)
Definition no_fetch : Z -> Z -> option box -> option string -> bool -> bool -> string * string :=
  fun _ _ _ _ _ _ => ("", "").
Definition no_objr : elem_info -> option Z -> rendered := fun _ _ => no_content.
Definition pdf_id : string -> string := fun s => s.

(** [n] nested [Sect] elements around [c], and the markup expected for
    them around [h]. *)
Fixpoint sects (n : nat) (c : struct_child) : struct_child :=
  match n with
  | O => c
  | Datatypes.S m => el "Sect" (KOne (sects m c))
  end.

Fixpoint sections (n : nat) (h : html) : html :=
  match n with
  | O => h
  | Datatypes.S m => HNode "section" [("data-pdf-se-type", "Sect")] [sections m h]
  end.

End Spec.

Module ExtractSpec.
Import Extract.

(** The properties a single operator stores for content id [m], if any:
    a [BDC] with a property dictionary whose [/MCID] is [m] and which
    carries at least one of the four properties. *)
Definition declared_props (m : Z) (o : op) : option mc_props :=
  match o with
  | OpBeginMarkedContentProps _ (PropsDict (Some m') lang atext alt e) =>
      let cp := content_props lang atext alt e in
      if (m' =? m)%Z && props_nonempty cp then Some cp else None
  | _ => None
  end.

(** The properties of the last such declaration in an operator list. *)
Fixpoint last_declared_props (m : Z) (ops : list op) : option mc_props :=
  match ops with
  | [] => None
  | o :: r =>
      match last_declared_props m r with
      | Some p => Some p
      | None => declared_props m o
      end
  end.

End ExtractSpec.

(* ================================================================== *)
(** * Generated element ids ([ensureGeneratedId]) *)

Module Ids.

(** The [childOrRef] argument: a PDF reference [Ref] with its object
    and generation numbers (non-negative integers in pdf.js), or a value
    that is not a [Ref] (an inline dictionary). *)
Inductive child_or_ref := RefChild (num gen : N) | NotRef.

(** [IdState]: the [byRef] [Map] keyed by [getRefKey], the [byDict]
    [WeakMap] keyed by the identity of the dictionary object (modelled
    as a [nat]), and the [counter]. *)
Record id_state := mkIdState {
  byRef : gmap string string;
  byDict : gmap nat string;
  counter : N
}.

(** The state created by [traverseStructure]. *)
Definition initial_state : id_state := mkIdState ∅ ∅ 1%N.

Definition getRefKey (num gen : N) : string := pretty num ++ "R" ++ pretty gen.

(** [lookupGeneratedId]; [|| null] turns an empty string into [null]. *)
Definition lookupGeneratedId (c : child_or_ref) (dict : nat) (st : id_state)
    : option string :=
  match c with
  | RefChild num gen => Render.truthy (byRef st !! getRefKey num gen)
  | NotRef => Render.truthy (byDict st !! dict)
  end.

(** [ensureGeneratedId]: the id and the updated state. *)
Definition ensureGeneratedId (c : child_or_ref) (dict : nat) (st : id_state)
    : string * id_state :=
  match lookupGeneratedId c dict st with
  | Some existing => (existing, st)
  | None =>
      match c with
      | RefChild num gen =>
          let generated := "pdf-se-" ++ pretty num ++ "-" ++ pretty gen in
          (generated,
           mkIdState (<[getRefKey num gen := generated]> (byRef st)) (byDict st) (counter st))
      | NotRef =>
          let generated := "pdf-se-" ++ pretty (counter st) in
          (generated,
           mkIdState (byRef st) (<[dict := generated]> (byDict st)) (counter st + 1)%N)
      end
  end.

(** A sequence of [ensureGeneratedId] calls threading one [IdState]:
    the ids returned, in order, and the final state. *)
Fixpoint run_calls (calls : list (child_or_ref * nat)) (st : id_state)
    : list string * id_state :=
  match calls with
  | [] => ([], st)
  | (c, d) :: rest =>
      let '(id, st') := ensureGeneratedId c d st in
      let '(ids, st'') := run_calls rest st' in
      (id :: ids, st'')
  end.

(** What identifies the element of a call: its reference for a [Ref],
    the dictionary object otherwise. *)
Definition element_key (call : child_or_ref * nat) : (N * N) + nat :=
  match call with
  | (RefChild num gen, _) => inl (num, gen)
  | (NotRef, d) => inr d
  end.

(** The id a state holds for an element. *)
Definition assigned (st : id_state) (key : (N * N) + nat) : option string :=
  match key with
  | inl (num, gen) => byRef st !! getRefKey num gen
  | inr d => byDict st !! d
  end.

(** The invariant of the states reached from [initial_state]: [byRef]
    maps [getRefKey num gen] to [pdf-se-num-gen], [byDict] maps
    dictionaries to [pdf-se-k] for counters [k] already used, and no
    two dictionaries share an id. *)
Definition ids_invariant (st : id_state) : Prop :=
  (forall k v, byRef st !! k = Some v ->
     exists num gen, k = getRefKey num gen /\ v = "pdf-se-" ++ pretty num ++ "-" ++ pretty gen) /\
  (forall d v, byDict st !! d = Some v ->
     exists k, (k < counter st)%N /\ v = "pdf-se-" ++ pretty k) /\
  (forall d1 d2 v, byDict st !! d1 = Some v -> byDict st !! d2 = Some v -> d1 = d2).

End Ids.

(* ================================================================== *)
(** * List labels ([parseListType]) *)

Module ListLabels.
Import Text.

(** [s.match(re)[0]] for a regular expression [re] matching one or more
    characters of a class [p]: the first maximal run of such characters,
    or [None] for [null]. *)
Fixpoint first_run (p : ascii -> bool) (s : string) : option string :=
  match s with
  | EmptyString => None
  | String c r => if p c then Some (fst (span p s)) else first_run p r
  end.

(** ASCII [toUpperCase]. *)
Definition upper_char (c : ascii) : ascii :=
  let n := nat_of_ascii c in
  if (97 <=? n)%nat && (n <=? 122)%nat then ascii_of_nat (n - 32) else c.

Fixpoint toUpperCase (s : string) : string :=
  match s with
  | EmptyString => EmptyString
  | String c r => String (upper_char c) (toUpperCase r)
  end.

(** [[ivxlcdm]] with the [i] flag. *)
Definition is_roman_char (c : ascii) : bool :=
  existsb (Ascii.eqb (Str.lower_char c)) ["i"; "v"; "x"; "l"; "c"; "d"; "m"]%char.

(** [parseListType]; [labelText] [None] is [null]. The unused
    [isLower] of the source is left out. *)
Definition parseListType (labelText : option string) : option string :=
  match labelText with
  | None => None
  | Some t =>
      if Str.eqs t "" then None else
      match first_run is_alpha t with
      | None => None
      | Some letters =>
          if Str.eqs letters "" then None else
          let isUpper := Str.eqs letters (toUpperCase letters) in
          let isRoman := all_chars is_roman_char letters in
          if isRoman then Some (if isUpper then "I" else "i")
          else if all_chars is_alpha letters then Some (if isUpper then "A" else "a")
          else None
      end
  end.

End ListLabels.

(* ================================================================== *)
(** * Caption reordering ([reorderCaptionElements]) *)

Module Captions.

(** What the loop of [reorderCaptionElements] reads from a child:
    [None] when [fetchIfRef] gives nothing or a number, when [getDict]
    fails, or when the dictionary has no [S] name; otherwise the [S]
    name and the namespace URI from [getNamespaceURI]. *)
Definition is_caption {A} (info : A -> option (string * string))
    (roleMap : Roles.role_map) (child : A) : bool :=
  match info child with
  | None => false
  | Some (sType, ns) =>
      if Str.eqs sType "" then false
      else Str.eqs (Roles.resolveRole sType roleMap ns) "Caption"
  end.

(** The loop, with the [captions] and [others] arrays. *)
Definition reorder_step {A} (info : A -> option (string * string))
    (roleMap : Roles.role_map) (acc : list A * list A) (child : A) : list A * list A :=
  let '(captions, others) := acc in
  if is_caption info roleMap child then (captions ++ [child], others)%list
  else (captions, others ++ [child])%list.

(** [reorderCaptionElements]: [[...captions, ...others]]. *)
Definition reorderCaptionElements {A} (info : A -> option (string * string))
    (roleMap : Roles.role_map) (children : list A) : list A :=
  let '(captions, others) := fold_left (reorder_step info roleMap) children ([], []) in
  (captions ++ others)%list.

End Captions.

(* ================================================================== *)
(** * Text of marked content ([processTextItems]) *)

Module TextItems.
Import Text.

(** The text items of [getTextContent] with [includeMarkedContent], as
    far as [processTextItems] tells them apart: the three marked-content
    item types (a [beginMarkedContentProps] item with its optional
    [id]), and any other item with its [str] ([""] when absent) and
    [hasEOL]. *)
Inductive text_item :=
| BeginMarkedContentProps (id : option string)
| BeginMarkedContent
| EndMarkedContent
| TextItem (str : string) (hasEOL : bool).

(** The fields of [ContentExtractor] that [processTextItems] uses. *)
Record text_state := mkTextState {
  textStack : list (list Z);
  mcidToText : gmap Z string;
  mcidHasContent : gset Z;
  lastTextMcids : gset Z
}.

Definition empty_text_state : text_state := mkTextState [] ∅ ∅ ∅.

(** [parts[1]] of [id.split("_mc")], when [parts.length > 1]. *)
Definition split_mc_1 (id : string) : option string :=
  match index_of "_mc" id with
  | None => None
  | Some k =>
      let r := drop (k + 3) id in
      match index_of "_mc" r with
      | Some j => Some (take j r)
      | None => Some r
      end
  end.

(** The [mcids] pushed for a [beginMarkedContentProps] item. *)
Definition item_mcids (id : option string) : list Z :=
  match id with
  | Some i =>
      if Str.eqs i "" then []
      else match split_mc_1 i with
           | Some p => match Str.parseInt p with Some m => [m] | None => [] end
           | None => []
           end
  | None => []
  end.

(** [activeMcids]: every MCID of the stack. *)
Definition active_mcids (stack : list (list Z)) : gset Z :=
  foldr (fun e acc => list_to_set e ∪ acc) ∅ stack.

(** The [mcidToText.set] loop over [targetMcids]. *)
Definition append_text (target : gset Z) (piece : string) (m : gmap Z string)
    : gmap Z string :=
  set_fold (fun mcid acc =>
              <[mcid := default "" (acc !! mcid) ++ piece]> acc) m target.

(** One pass of the loop of [processTextItems]; [pop] on an empty stack
    leaves it empty. *)
Definition process_item (st : text_state) (item : text_item) : text_state :=
  match item with
  | BeginMarkedContentProps id =>
      mkTextState (textStack st ++ [item_mcids id])%list (mcidToText st)
        (mcidHasContent st) (lastTextMcids st)
  | BeginMarkedContent =>
      mkTextState (textStack st ++ [[]])%list (mcidToText st)
        (mcidHasContent st) (lastTextMcids st)
  | EndMarkedContent =>
      mkTextState (removelast (textStack st)) (mcidToText st)
        (mcidHasContent st) (lastTextMcids st)
  | TextItem text hasEOL =>
      if Str.eqs text "" then st else
      let isWhitespaceOnly := Str.eqs (Str.trim text) "" in
      let activeMcids := active_mcids (textStack st) in
      if bool_decide (activeMcids = ∅) then st else
      let hasActiveContent :=
        negb (bool_decide (activeMcids ∩ mcidHasContent st = ∅)) in
      let targetMcids :=
        if isWhitespaceOnly && negb hasActiveContent
           && negb (bool_decide (lastTextMcids st = ∅))
        then lastTextMcids st else activeMcids in
      let suffix := if hasEOL then String "010"%char "" else "" in
      let texts := append_text targetMcids (text ++ suffix) (mcidToText st) in
      if isWhitespaceOnly then
        mkTextState (textStack st) texts (mcidHasContent st) (lastTextMcids st)
      else
        mkTextState (textStack st) texts (activeMcids ∪ mcidHasContent st) activeMcids
  end.

(** The text a [TextItem] with [str] and [hasEOL] appends to the MCIDs
    it targets: nothing for an empty [str], which is skipped. *)
Definition item_piece (str : string) (hasEOL : bool) : string :=
  if Str.eqs str "" then "" else str ++ (if hasEOL then String "010"%char "" else "").

(** [processTextItems]. *)
Definition processTextItems (items : list text_item) (st : text_state) : text_state :=
  fold_left process_item items st.

End TextItems.

(* ================================================================== *)
(** * Properties *)

Module RolesFacts.
Import Roles.

Lemma loop_body_continue rm current seen c s :
  loop_body (Some rm) current seen = Some (Continue c s) ->
  (current ∈ dom rm) /\ (current ∉ seen) /\ s = ({[current]} ∪ seen).
Proof.
  unfold loop_body. intros H.
  destruct (rm !! current) as [next|] eqn:Hl; [|discriminate].
  case_bool_decide; [discriminate|].
  destruct (Str.eqs next ""); [discriminate|].
  destruct (isStandardType next); [discriminate|].
  inversion H; subst. split; [|split]; [|done|done].
  apply elem_of_dom. eauto.
Qed.

Lemma loop_body_break rm current seen c :
  loop_body (Some rm) current seen = Some (Break c) ->
  current ∈ dom rm /\ current ∉ seen.
Proof.
  unfold loop_body. intros H.
  destruct (rm !! current) as [next|] eqn:Hl; [|discriminate].
  case_bool_decide; [discriminate|].
  split; [|done]. apply elem_of_dom. eauto.
Qed.

Lemma size_add_fresh (x : string) (X Y : gset string) :
  x ∉ X -> X ⊆ Y -> x ∈ Y ->
  size ({[x]} ∪ X) = S (size X) /\ (size ({[x]} ∪ X) <= size Y)%nat.
Proof.
  intros Hx HXY Hy. split.
  - rewrite size_union by set_solver. rewrite size_singleton. lia.
  - apply subseteq_size. set_solver.
Qed.

(** The loop of [resolveRole], started with a [seen] set of keys of the
    map, leaves after at most [size rm - size seen] passes, and the
    bounded runner [resolve_loop] computes its result. *)
Lemma resolve_loop_runs_gen rm : forall n current seen,
  (size rm - size seen <= n)%nat -> seen ⊆ dom rm ->
  exists k r, loop_runs (Some rm) current seen k r
    /\ (k <= size rm - size seen)%nat
    /\ forall fuel, (k < fuel)%nat -> resolve_loop fuel (Some rm) current seen = r.
Proof.
  induction n as [|n IH]; intros current seen Hn Hsub.
  - (* no key is left unseen: the loop condition fails at once *)
    assert (Hle : (size rm <= size seen)%nat) by lia.
    destruct (loop_body (Some rm) current seen) as [[c s|c]|] eqn:Hb.
    + apply loop_body_continue in Hb as (Hd & Hns & _).
      destruct (size_add_fresh current seen (dom rm)) as [H1 H2]; auto.
      rewrite size_dom in H2. lia.
    + apply loop_body_break in Hb as (Hd & Hns).
      destruct (size_add_fresh current seen (dom rm)) as [H1 H2]; auto.
      rewrite size_dom in H2. lia.
    + exists 0%nat, current. split; [by constructor|]. split; [lia|].
      intros [|f] Hf; [lia|]. cbn [resolve_loop]. by rewrite Hb.
  - destruct (loop_body (Some rm) current seen) as [[c s|c]|] eqn:Hb.
    + pose proof Hb as Hb'.
      apply loop_body_continue in Hb' as (Hd & Hns & ->).
      destruct (size_add_fresh current seen (dom rm)) as [H1 H2]; auto.
      rewrite size_dom in H2.
      destruct (IH c ({[current]} ∪ seen)) as (k & r & Hr & Hk & Hf);
        [lia|set_solver|].
      exists (S k), r. split; [by econstructor|]. split; [lia|].
      intros [|f] Hlt; [lia|]. cbn [resolve_loop]. rewrite Hb. apply Hf. lia.
    + pose proof Hb as Hb'.
      apply loop_body_break in Hb' as (Hd & Hns).
      destruct (size_add_fresh current seen (dom rm)) as [H1 H2]; auto.
      rewrite size_dom in H2.
      exists 1%nat, c. split; [by constructor|]. split; [lia|].
      intros [|f] Hf; [lia|]. cbn [resolve_loop]. by rewrite Hb.
    + exists 0%nat, current. split; [by constructor|]. split; [lia|].
      intros [|f] Hf; [lia|]. cbn [resolve_loop]. by rewrite Hb.
Qed.

End RolesFacts.

Module RenderFacts.
Import Roles Render.

Lemma generic_heading_cases r :
  is_generic_heading r = true -> r = "H" \/ r = "Hn" \/ r = "Title".
Proof.
  unfold is_generic_heading, Str.eqs. intros H.
  repeat rewrite orb_true_iff in H. rewrite !String.eqb_eq in H. tauto.
Qed.

End RenderFacts.

Module AttrsFacts.
Import Attrs.

Lemma map_get_set m k' v k :
  map_get (map_set m k' v) k = if Str.eqs k k' then Some v else map_get m k.
Proof.
  induction m as [|[k'' v''] r IH]; [reflexivity|].
  cbn [map_set]. unfold Str.eqs in *.
  destruct (String.eqb_spec k' k'') as [->|Hne]; cbn [map_get]; unfold Str.eqs.
  - destruct (k =? k''); reflexivity.
  - rewrite IH. destruct (String.eqb_spec k k'') as [->|]; [|reflexivity].
    destruct (String.eqb_spec k'' k') as [->|]; [congruence|reflexivity].
Qed.

Lemma map_get_apply_writes m ws k :
  map_get (apply_writes m ws) k
  = match last_write k ws with Some v => Some v | None => map_get m k end.
Proof.
  unfold apply_writes. revert m.
  induction ws as [|w ws IH]; intros m; [reflexivity|].
  destruct w as [k' v]. cbn [fold_left last_write fst snd].
  rewrite IH, map_get_set.
  destruct (last_write k ws); [reflexivity|].
  destruct (Str.eqs k k'); reflexivity.
Qed.

Lemma fold_writes_concat (f : attr_dict -> list (string * string)) L m :
  fold_left (fun m d => apply_writes m (f d)) L m
  = apply_writes m (concat (map f L)).
Proof.
  revert m. induction L as [|d L IH]; intros m; cbn; [reflexivity|].
  rewrite IH. unfold apply_writes. rewrite fold_left_app. reflexivity.
Qed.

Lemma map_get_fold_writes (f : attr_dict -> list (string * string)) L k :
  map_get (fold_left (fun m d => apply_writes m (f d)) L []) k
  = last_write k (concat (map f L)).
Proof.
  rewrite fold_writes_concat, map_get_apply_writes.
  destruct (last_write _ _); reflexivity.
Qed.

End AttrsFacts.

Module ExtractFacts.
Import Extract ExtractSpec.

Lemma record_ops_props stack o ex :
  mcidToProps (recordOp stack o ex) = mcidToProps ex.
Proof. reflexivity. Qed.

Lemma record_image_props stack img ex :
  mcidToProps (recordImage stack img ex) = mcidToProps ex.
Proof. reflexivity. Qed.

Lemma extract_step_props st o m :
  mcidToProps (snd (extract_step st o)) !! m
  = match declared_props m o with
    | Some p => Some p
    | None => mcidToProps (snd st) !! m
    end.
Proof.
  destruct st as [stack ex].
  destruct o as [tag [mc|[mc|] l a al e]| | | | | |]; try reflexivity.
  cbn [extract_step snd declared_props].
  destruct (props_nonempty _) eqn:Hne.
  - destruct (Z.eqb_spec mc m) as [->|Hm]; cbn.
    + apply lookup_insert_eq.
    + apply lookup_insert_ne. congruence.
  - rewrite andb_false_r. reflexivity.
Qed.

Lemma fold_extract_props ops st m :
  mcidToProps (snd (fold_left extract_step ops st)) !! m
  = match last_declared_props m ops with
    | Some p => Some p
    | None => mcidToProps (snd st) !! m
    end.
Proof.
  revert st. induction ops as [|o ops IH]; intros st; [reflexivity|].
  cbn [fold_left last_declared_props]. rewrite IH, extract_step_props.
  destruct (last_declared_props m ops); reflexivity.
Qed.

End ExtractFacts.

Module TextFacts.
Import Html Text.

Lemma str_app_cons x (a b : string) : String x a ++ b = String x (a ++ b).
Proof. reflexivity. Qed.

Lemma str_app_nil_l (b : string) : "" ++ b = b.
Proof. reflexivity. Qed.

Lemma str_app_assoc (a b c : string) : (a ++ b) ++ c = a ++ (b ++ c).
Proof. induction a as [|x a IH]; [reflexivity|]. rewrite !str_app_cons. congruence. Qed.

Lemma str_app_nil_r (a : string) : a ++ "" = a.
Proof. induction a as [|x a IH]; [reflexivity|]. rewrite !str_app_cons. congruence. Qed.

Lemma str_length_app (a b : string) :
  String.length (a ++ b) = (String.length a + String.length b)%nat.
Proof.
  induction a as [|x a IH]; [reflexivity|].
  rewrite str_app_cons. cbn [String.length]. rewrite IH. reflexivity.
Qed.

Lemma replace_all_app c r x y :
  replace_all c r (x ++ y) = replace_all c r x ++ replace_all c r y.
Proof.
  induction x as [|d x IH]; [reflexivity|].
  rewrite str_app_cons. cbn [replace_all].
  destruct (Ascii.eqb d c); rewrite IH;
    [symmetry; apply str_app_assoc | rewrite str_app_cons; reflexivity].
Qed.

Lemma escapeHtml_app x y : escapeHtml (x ++ y) = escapeHtml x ++ escapeHtml y.
Proof. unfold escapeHtml. now rewrite !replace_all_app. Qed.

Lemma escapeHtml_cons c s : escapeHtml (String c s) = escapeHtml (String c "") ++ escapeHtml s.
Proof. apply (escapeHtml_app (String c "") s). Qed.

Lemma escape_char_cases c :
  (c = "&"%char /\ escapeHtml (String c "") = "&amp;")
  \/ (c = "<"%char /\ escapeHtml (String c "") = "&lt;")
  \/ (c = ">"%char /\ escapeHtml (String c "") = "&gt;")
  \/ (c = ascii_of_nat 34 /\ escapeHtml (String c "") = "&quot;")
  \/ (c = "'"%char /\ escapeHtml (String c "") = "&#039;")
  \/ (c <> "&"%char /\ c <> "<"%char /\ c <> ">"%char /\ c <> ascii_of_nat 34
      /\ c <> "'"%char /\ escapeHtml (String c "") = String c "").
Proof.
  unfold escapeHtml.
  destruct (Ascii.eqb_spec c "&") as [->|H1]; [left; split; reflexivity|].
  destruct (Ascii.eqb_spec c "<") as [->|H2]; [right; left; split; reflexivity|].
  destruct (Ascii.eqb_spec c ">") as [->|H3]; [do 2 right; left; split; reflexivity|].
  destruct (Ascii.eqb_spec c (ascii_of_nat 34)) as [->|H4];
    [do 3 right; left; split; reflexivity|].
  destruct (Ascii.eqb_spec c "'") as [->|H5]; [do 4 right; left; split; reflexivity|].
  do 5 right. repeat split; auto.
  repeat (cbn [replace_all];
          match goal with
          | |- context [Ascii.eqb c ?d] => destruct (Ascii.eqb_spec c d); [congruence|]
          end).
  reflexivity.
Qed.

Lemma decode_escape s n :
  (String.length (escapeHtml s) <= n)%nat -> decode_go n (escapeHtml s) = s.
Proof.
  revert n. induction s as [|c s IH]; intros n Hn.
  { destruct n; reflexivity. }
  rewrite escapeHtml_cons in *. rewrite str_length_app in Hn.
  destruct (escape_char_cases c) as [[-> E]|[[-> E]|[[-> E]|[[-> E]|[[-> E]|(H1&H2&H3&H4&H5&E)]]]]];
    rewrite E in *; cbn in Hn; (destruct n as [|n]; [lia|]);
    cbn [decode_go String.append].
  all: try (cbn; f_equal; apply IH; lia).
  rewrite str_app_cons, str_app_nil_l.
  destruct (Ascii.eqb_spec c "&"); [congruence|].
  f_equal. apply IH. lia.
Qed.

Lemma contains_char_app d a b :
  contains_char d (a ++ b) = contains_char d a || contains_char d b.
Proof.
  induction a as [|x a IHa]; [reflexivity|].
  rewrite str_app_cons. cbn [contains_char]. rewrite IHa. apply orb_assoc.
Qed.

Lemma extract_plain t u out n :
  contains_char "<" t = false ->
  extract_go (String.length t + n) (t ++ u) out = extract_go n u (out ++ t).
Proof.
  revert out. induction t as [|x t IH]; intros out Ht.
  { cbn. rewrite str_app_nil_r. reflexivity. }
  cbn [contains_char] in Ht. apply orb_false_iff in Ht as [Hx Ht].
  rewrite str_app_cons. cbn [String.length Nat.add extract_go]. rewrite Hx.
  rewrite IH by exact Ht. rewrite str_app_assoc. reflexivity.
Qed.

Lemma prefix_nil s : String.prefix "" s = true.
Proof. destruct s; reflexivity. Qed.

Lemma index_of_gt o rest :
  contains_char ">" o = false ->
  index_of ">" (o ++ ">" ++ rest) = Some (String.length o).
Proof.
  induction o as [|x o IH]; intros Ho.
  { rewrite str_app_nil_l, str_app_cons, str_app_nil_l. cbn [index_of String.prefix].
    destruct (ascii_dec ">" ">"); [|congruence]. rewrite prefix_nil. reflexivity. }
  cbn [contains_char] in Ho. apply orb_false_iff in Ho as [Hx Ho].
  rewrite str_app_cons. cbn [index_of String.prefix].
  destruct (ascii_dec ">" x) as [<-|]; [discriminate|].
  rewrite IH by exact Ho. reflexivity.
Qed.

Lemma take_app o x : take (String.length o) (o ++ x) = o.
Proof. induction o as [|c o IH]; [reflexivity|]. rewrite str_app_cons. cbn. now rewrite IH. Qed.

Lemma drop_app o x : drop (String.length o) (o ++ x) = x.
Proof. induction o as [|c o IH]; [reflexivity|]. rewrite str_app_cons. cbn. exact IH. Qed.

Lemma concat_cons x l : Str.concat (x :: l) = x ++ Str.concat l.
Proof. reflexivity. Qed.

Lemma concat_app l1 l2 : Str.concat (app l1 l2) = Str.concat l1 ++ Str.concat l2.
Proof.
  induction l1 as [|x l1 IH]; [reflexivity|].
  cbn [app]. rewrite !concat_cons, IH. symmetry. apply str_app_assoc.
Qed.

Lemma concat_chars s : Str.concat (Str.chars s) = s.
Proof.
  induction s as [|c r IH]; [reflexivity|]. cbn [Str.chars].
  destruct (Str.chars r) as [|[|d u] us] eqn:E.
  - cbn in IH |- *. subst r. reflexivity.
  - rewrite concat_cons in IH |- *. rewrite concat_cons. rewrite <- IH. reflexivity.
  - destruct (Str.is_cont d); rewrite !concat_cons in *; rewrite <- IH; reflexivity.
Qed.

Lemma chars_head c x : exists u cs, Str.chars (String c x) = String c u :: cs.
Proof.
  cbn [Str.chars]. destruct (Str.chars x) as [|[|d u] us].
  - eauto.
  - eauto.
  - destruct (Str.is_cont d); eauto.
Qed.

(** The white-space characters as strings. *)
Lemma is_ws_spec ch :
  Str.is_ws ch = existsb (Str.eqs ch)
    [ String "009"%char ""; String "010"%char ""; String "011"%char "";
      String "012"%char ""; String "013"%char ""; String " "%char "";
      String "194"%char (String "160"%char "");
      String "225"%char (String "154"%char (String "128"%char ""));
      String "226"%char (String "128"%char (String "128"%char ""));
      String "226"%char (String "128"%char (String "129"%char ""));
      String "226"%char (String "128"%char (String "130"%char ""));
      String "226"%char (String "128"%char (String "131"%char ""));
      String "226"%char (String "128"%char (String "132"%char ""));
      String "226"%char (String "128"%char (String "133"%char ""));
      String "226"%char (String "128"%char (String "134"%char ""));
      String "226"%char (String "128"%char (String "135"%char ""));
      String "226"%char (String "128"%char (String "136"%char ""));
      String "226"%char (String "128"%char (String "137"%char ""));
      String "226"%char (String "128"%char (String "138"%char ""));
      String "226"%char (String "128"%char (String "168"%char ""));
      String "226"%char (String "128"%char (String "169"%char ""));
      String "226"%char (String "128"%char (String "175"%char ""));
      String "226"%char (String "129"%char (String "159"%char ""));
      String "227"%char (String "128"%char (String "128"%char ""));
      String "239"%char (String "187"%char (String "191"%char "")) ].
Proof. reflexivity. Qed.

(** A character that starts with an ASCII byte other than white space
    is not white space. *)
Lemma is_ws_ascii_head c u :
  (nat_of_ascii c < 128)%nat -> Str.is_ws (String c "") = false ->
  Str.is_ws (String c u) = false.
Proof.
  intros Hc Hw. rewrite is_ws_spec in Hw |- *.
  cbn [existsb] in Hw |- *. unfold Str.eqs in *. cbn [String.eqb] in Hw |- *.
  repeat match goal with
         | |- context [Ascii.eqb c ?d] =>
             destruct (Ascii.eqb_spec c d) as [->|?];
             [first [cbn in Hw; discriminate
                    | exfalso; apply Nat.ltb_lt in Hc; vm_compute in Hc; discriminate]|]
         end.
  reflexivity.
Qed.

Lemma span_ws_spec l w r :
  Str.span_ws l = (w, r) ->
  l = app w r /\ Forall (fun ch => Str.is_ws ch = true) w /\
  (forall ch r', r = ch :: r' -> Str.is_ws ch = false).
Proof.
  revert w r. induction l as [|x l IH]; intros w r E.
  - cbn in E. injection E as <- <-. split; [reflexivity|]. split; [constructor|]. discriminate.
  - cbn [Str.span_ws] in E. destruct (Str.is_ws x) eqn:Hx.
    + destruct (Str.span_ws l) as [w' r'] eqn:E'. injection E as <- <-.
      destruct (IH w' r' eq_refl) as (H1 & H2 & H3).
      split; [cbn; congruence|]. split; [constructor; assumption|]. exact H3.
    + injection E as <- <-. split; [reflexivity|]. split; [constructor|].
      intros ch r' Hr. injection Hr as <- _. exact Hx.
Qed.

Lemma span_ws_snoc l x :
  Str.is_ws x = false ->
  exists w r, Str.span_ws l = (w, r) /\ Str.span_ws (app l [x]) = (w, app r [x]).
Proof.
  intros Hx. induction l as [|y l IH].
  - exists [], []. cbn [Str.span_ws app]. rewrite Hx. split; reflexivity.
  - destruct IH as (w & r & E1 & E2). cbn [Str.span_ws app].
    destruct (Str.is_ws y).
    + rewrite E1. rewrite E2. eauto.
    + exists [], (y :: l). split; reflexivity.
Qed.

Lemma trim_first c x :
  (nat_of_ascii c < 128)%nat -> Str.is_ws (String c "") = false ->
  exists t, Str.trim (String c x) = String c t.
Proof.
  intros Hc Hw. unfold Str.trim.
  destruct (chars_head c x) as (u & cs & E). rewrite E.
  cbn [Str.span_ws]. rewrite (is_ws_ascii_head c u Hc Hw). cbn [snd rev].
  destruct (span_ws_snoc (rev cs) (String c u) (is_ws_ascii_head c u Hc Hw))
    as (w & r & _ & E2).
  rewrite E2. cbn [snd]. rewrite rev_app_distr. cbn [rev app].
  rewrite concat_cons. eexists. reflexivity.
Qed.

Lemma drop_app_add o x n : drop (String.length o + n) (o ++ x) = drop n x.
Proof. induction o as [|y o IH]; [reflexivity|]. rewrite str_app_cons. exact IH. Qed.

Lemma escape_special_free s :
  contains_char "<" (escapeHtml s) = false /\ contains_char ">" (escapeHtml s) = false
  /\ contains_char (ascii_of_nat 34) (escapeHtml s) = false
  /\ contains_char "'" (escapeHtml s) = false.
Proof.
  induction s as [|c s IH]; [repeat split|].
  rewrite escapeHtml_cons.
  assert (Happ : forall d a b, contains_char d (a ++ b) = contains_char d a || contains_char d b).
  { intros d a b. induction a as [|x a IHa]; [reflexivity|].
    rewrite str_app_cons. cbn [contains_char]. rewrite IHa. apply orb_assoc. }
  rewrite !Happ. destruct IH as (A & B & C & D). rewrite A, B, C, D.
  destruct (escape_char_cases c) as [[-> ->]|[[-> ->]|[[-> ->]|[[-> ->]|[[-> ->]|(?&?&?&?&?&->)]]]]];
    try (repeat split; reflexivity).
  cbn. rewrite !orb_false_r.
  repeat split; apply Bool.not_true_iff_false; intros Hc; apply Ascii.eqb_eq in Hc; congruence.
Qed.

Lemma decode_escape_full s : decodeHtmlEntities (escapeHtml s) = s.
Proof. apply decode_escape. lia. Qed.

Lemma all_chars_app p a b : all_chars p (a ++ b) = all_chars p a && all_chars p b.
Proof.
  induction a as [|x a IH]; [reflexivity|]. rewrite str_app_cons. cbn [all_chars].
  rewrite IH. apply andb_assoc.
Qed.

Lemma escapeHtml_eqs_empty s : Str.eqs (escapeHtml s) "" = Str.eqs s "".
Proof.
  destruct s as [|c s]; [reflexivity|]. rewrite escapeHtml_cons.
  destruct (escape_char_cases c) as [[-> ->]|[[-> ->]|[[-> ->]|[[-> ->]|[[-> ->]|(?&?&?&?&?&->)]]]]];
    reflexivity.
Qed.

Lemma split_edge_concat text l c t :
  Extract.splitEdgeWhitespace text = (l, c, t) -> l ++ c ++ t = text.
Proof.
  unfold Extract.splitEdgeWhitespace.
  destruct (Str.span_ws (Str.chars text)) as [w rest] eqn:E1.
  destruct (Str.span_ws (rev rest)) as [tr cr] eqn:E2.
  intros E. injection E as <- <- <-.
  destruct (span_ws_spec _ _ _ E1) as (A1 & _ & _).
  destruct (span_ws_spec _ _ _ E2) as (B1 & _ & _).
  rewrite <- !concat_app, <- rev_app_distr, <- B1, rev_involutive, <- A1.
  apply concat_chars.
Qed.

End TextFacts.

Module Claims.
Import Roles RolesFacts Render RenderFacts Html Spec.

(** Claim C8. For every role map with N entries and every structure type
    name, [resolveRole] either returns before its loop, or runs the loop
    for at most N passes and leaves it by itself (standard type reached,
    mapping missing or empty, or value already seen) with the value it
    returns. *)
Theorem resolveRole_at_most_N_steps (roleMap : role_map) (role ns : string) :
  exists k, (k <= map_size roleMap)%nat /\
    ((Str.eqs role "" || isPdfStandardNamespace ns && isStandardType role = true
      /\ resolveRole role roleMap ns = role)
     \/ loop_runs roleMap role ∅ k (resolveRole role roleMap ns)).
Proof.
  unfold resolveRole.
  destruct (Str.eqs role "") eqn:He.
  { exists 0%nat. split; [lia|]. left. split; reflexivity. }
  destruct (isPdfStandardNamespace ns && isStandardType role) eqn:Hs.
  { exists 0%nat. split; [lia|]. left. split; reflexivity. }
  destruct roleMap as [rm|].
  - destruct (resolve_loop_runs_gen rm (size rm) role ∅)
      as (k & r & Hr & Hk & Hf); [rewrite size_empty; lia|set_solver|].
    rewrite size_empty in Hk. exists k. simpl map_size. split; [lia|].
    right. rewrite (Hf (Datatypes.S (size rm))) by lia. exact Hr.
  - exists 0%nat. split; [simpl; lia|]. right. simpl. constructor. reflexivity.
Qed.

(** Claim C4 (defect of the explicit-heading pattern). [H7] matches the
    explicit heading pattern of the specification but is not a standard
    type for [isStandardType], whose pattern [/^H\\d+$/] wants a
    backslash after the H; so with the default namespace and a role map
    entry [H7 -> P], [resolveRole] returns [P], not [H7]. *)
Theorem resolveRole_H7_remapped :
  spec_standard_type "H7" = true /\ isStandardType "H7" = false
  /\ resolveRole "H7" (Some {[ "H7" := "P" ]}) "" = "P".
Proof. vm_compute. repeat split. Qed.

(** Claim C1 (defect). [traverseStructure] returns the markup string
    alone; [convertToHTML] destructures [html] and [structureMap] from
    it, both [undefined], and [structureMap.size] throws a [TypeError]
    for every document. *)
Theorem convert_body_throws (roleMap : role_map)
    (fetchContentForMCID : Z -> Z -> option box -> option string -> bool -> bool -> string * string)
    (processOBJR : elem_info -> option Z -> rendered) (stringToPDFString : string -> string)
    (root : option kids) :
  Convert.convert_body roleMap fetchContentForMCID processOBJR stringToPDFString root
  = Convert.TypeError.
Proof. reflexivity. Qed.

(** Claim C3 (defect of the explicit-heading pattern). From the root:
    [Sect > Sect > H] gives an [h3]; an [H] under eight [Sect]s (inherited
    depth 9) gives [p] with [role=heading] and [aria-level=9]; but an
    explicit [H9] is neither a standard type nor an explicit heading for
    the code, and renders as a [div]. *)
Theorem heading_levels_and_H9
    (fetchContentForMCID : Z -> Z -> option box -> option string -> bool -> bool -> string * string)
    (processOBJR : elem_info -> option Z -> rendered) (stringToPDFString : string -> string) :
  let render k :=
    r_html (processChildren None fetchContentForMCID processOBJR stringToPDFString
              root_ctx None k) in
  render (KOne (sects 2 (el "H" KNone)))
    = [sections 2 (HNode "h3" [("data-pdf-se-type", "H")] [])]
  /\ render (KOne (sects 8 (el "H" KNone)))
    = [sections 8 (HNode "p" [("data-pdf-se-type", "H"); ("role", "heading");
                              ("aria-level", "9")] [])]
  /\ render (KOne (el "H9" KNone))
    = [HNode "div" [("data-pdf-se-type", "H9")] []].
Proof. vm_compute. repeat split. Qed.

(** Claim C2 (defect of the explicit-heading pattern). [Table > TR > TD >
    H1] from the root: since [/^H\\d+$/] does not match [H1], the table
    cell guard never sees the [H1], which renders as [h1], not [p]. *)
Lemma H1_in_TD_renders_h1
    (fetchContentForMCID : Z -> Z -> option box -> option string -> bool -> bool -> string * string)
    (processOBJR : elem_info -> option Z -> rendered) (stringToPDFString : string -> string) :
  r_html (processChildren None fetchContentForMCID processOBJR stringToPDFString root_ctx None
    (KOne (el "Table" (KOne (el "TR" (KOne (el "TD" (KOne (el "H1" KNone)))))))))
  = [HNode "table" [("data-pdf-se-type", "Table")]
       [HNode "tr" [("data-pdf-se-type", "TR")]
          [HNode "td" [("data-pdf-se-type", "TD")]
             [HNode "h1" [("data-pdf-se-type", "H1")] []]]]].
Proof. vm_compute. reflexivity. Qed.

(** The table cell guard for generic headings. For every structure
    element with no [/AF] alternative, outside the MathML and XHTML
    namespaces, whose role resolves to a generic heading ([H], [Hn] or
    [Title]), whose immediate parent role is [TH] or [TD], and which has
    no [TextPosition] of [Sup] or [Sub], the emitted element is a [p]. *)
Theorem table_cell_generic_heading_is_p (roleMap : role_map)
    (fetchContentForMCID : Z -> Z -> option box -> option string -> bool -> bool -> string * string)
    (processOBJR : elem_info -> option Z -> rendered) (stringToPDFString : string -> string)
    (ctx : traversal_ctx) (pg : option Z) (info : elem_info) (K : kids) (sT : string)
    (Htype : opt_eqs (type info) "MCR" || opt_eqs (type info) "OBJR" = false)
    (Haf : replacement (AF info) = None)
    (HS : truthy (sType info) = Some sT)
    (Hns : Str.eqs (namespaceURI info) MathML_NS
           || Str.eqs (namespaceURI info) XHTML_NS = false)
    (Hgen : is_generic_heading (resolveRole sT roleMap (namespaceURI info)) = true)
    (Hcell : opt_eqs (parentRole ctx) "TH" || opt_eqs (parentRole ctx) "TD" = true)
    (Hpos : opt_eqs (TextPosition info) "Sup" || opt_eqs (TextPosition info) "Sub"
            = false) :
  exists attrs content,
    r_html (processStructElement roleMap fetchContentForMCID processOBJR stringToPDFString
              ctx pg (ElemChild info K))
    = [HNode "p" attrs content].
Proof.
  apply orb_false_iff in Htype as [T1 T2].
  cbn [processStructElement]. rewrite T1, T2, Haf, HS. unfold classify.
  apply orb_false_iff in Hns as [H1 H2]. rewrite H1, H2.
  apply orb_false_iff in Hpos as [P1 P2].
  destruct (generic_heading_cases _ Hgen) as [E|[E|E]]; rewrite E;
    unfold heading_tag; cbn -[processChildren opt_eqs]; rewrite Hcell;
    cbn -[processChildren opt_eqs];
    unfold text_position_tag; rewrite P1, P2; cbn -[processChildren];
    destruct (truthy (ActualText info)); cbn -[processChildren]; eauto.
Qed.

Lemma table_cell_generic_heading_is_p_witness :
  exists attrs content,
    r_html (processStructElement None no_fetch no_objr pdf_id
      (mkCtx (Some "TD") None None (Some 1%Z) None false false)
      None (el "Title" KNone)) = [HNode "p" attrs content].
Proof.
  apply (table_cell_generic_heading_is_p None no_fetch no_objr pdf_id
           (mkCtx (Some "TD") None None (Some 1%Z) None false false) None
           (mkElem None (Some "Title") "" None None no_af None None None None None
              None None None None)
           KNone "Title"); reflexivity.
Defined.

(** Claim C5, counterexample. A [Reference] whose [Link] sits one level
    down ([Reference > Span > Link]) renders two [a] elements, one nested
    in the other. *)
Lemma reference_span_link_nested_anchors :
  let out := r_html (processStructElement None no_fetch no_objr pdf_id root_ctx None
               (el "Reference" (KOne (el "Span" (KOne (el "Link" KNone)))))) in
  count_tag_forest "a" out = 2%nat /\ existsb (nested_tag "a") out = true.
Proof. vm_compute. split; reflexivity. Qed.

(** Claim C5, as amended. Take a structure element with no [/AF]
    alternative, outside the MathML and XHTML namespaces, whose role
    resolves to [Reference]. If one of its immediate children resolves to
    [Link], its output is exactly the rendering of its children, with the
    parent role of its own parent, its [BBox] (if any) in place of the
    inherited one, the MathML token flag cleared, and the rest of the
    context inherited: no element of its own, and its supplemental files
    dropped. Otherwise (a [Link] deeper down is not detected), without
    [ActualText] and without [TextPosition] [Sup] or [Sub], it is one [a]
    element whose content is the rendering of its children (under the
    parent role [Reference]) followed by its supplemental files. *)
Theorem reference_with_link_child_renders_children (roleMap : role_map)
    (fetchContentForMCID : Z -> Z -> option box -> option string -> bool -> bool -> string * string)
    (processOBJR : elem_info -> option Z -> rendered) (stringToPDFString : string -> string)
    (ctx : traversal_ctx) (pg : option Z) (info : elem_info) (K : kids) (sT : string)
    (Htype : opt_eqs (type info) "MCR" || opt_eqs (type info) "OBJR" = false)
    (Haf : replacement (AF info) = None)
    (HS : truthy (sType info) = Some sT)
    (Hns : Str.eqs (namespaceURI info) MathML_NS
           || Str.eqs (namespaceURI info) XHTML_NS = false)
    (Href : resolveRole sT roleMap (namespaceURI info) = "Reference") :
  let pg' := match Pg info with Some p => Some p | None => pg end in
  let bb := match BBox info with Some b => Some b | None => bbox ctx end in
  let out := processStructElement roleMap fetchContentForMCID processOBJR
               stringToPDFString ctx pg (ElemChild info K) in
  let children p :=
    processChildren roleMap fetchContentForMCID processOBJR stringToPDFString
      (mkCtx p (listNumbering ctx) bb (headingLevel ctx) (imageAlt ctx)
         (preferVector ctx) false) pg' K in
  (hasLinkChild roleMap K = true -> out = children (parentRole ctx))
  /\ (hasLinkChild roleMap K = false -> truthy (ActualText info) = None ->
      opt_eqs (TextPosition info) "Sup" || opt_eqs (TextPosition info) "Sub" = false ->
      exists attrs,
        r_html out
        = [HNode "a" attrs
             (app (wrap_abbr stringToPDFString info (r_html (children (Some "Reference"))))
                (supplement_html (supplements (AF info))))]).
Proof.
  intros pg' bb out children. subst out.
  apply orb_false_iff in Htype as [T1 T2].
  cbn [processStructElement]. rewrite T1, T2, Haf, HS. unfold classify.
  apply orb_false_iff in Hns as [H1 H2]. rewrite H1, H2, Href.
  split.
  - intros Hlink. cbn -[processChildren hasLinkChild]. rewrite Hlink.
    destruct K as [|[z| |i k]|cs]; try discriminate; reflexivity.
  - intros Hlink Hat Hpos. apply orb_false_iff in Hpos as [P1 P2].
    cbn -[processChildren hasLinkChild escapeHtml element_attrs link_attrs wrap_abbr
          supplement_html].
    rewrite Hlink. unfold text_position_tag. rewrite P1, P2, Hat.
    cbn -[processChildren escapeHtml element_attrs wrap_abbr supplement_html].
    destruct (truthy (Alt info)); eexists; reflexivity.
Qed.

Lemma reference_with_link_child_renders_children_witness :
  r_html (processStructElement None no_fetch no_objr pdf_id root_ctx None
    (el "Reference" (KOne (el "Link" KNone))))
  = [HNode "a" [("data-pdf-se-type", "Link")] []].
Proof.
  destruct (reference_with_link_child_renders_children None no_fetch no_objr pdf_id
              root_ctx None
              (mkElem None (Some "Reference") "" None None no_af None None None None None
                 None None None None)
              (KOne (el "Link" KNone)) "Reference" eq_refl eq_refl eq_refl eq_refl eq_refl)
    as [HA _].
  cbv zeta in HA. unfold el at 1. rewrite (HA eq_refl). reflexivity.
Defined.

(** Claim C6, counterexample. One Layout dictionary with [SpaceBefore]
    (which sets [display] to [block]) and [Placement] [Inline]: the
    later write downgrades [display] to [inline]. *)
Lemma space_before_then_inline_placement :
  let ds := [Attrs.mkAttr [("O", Attrs.VName "Layout"); ("SpaceBefore", Attrs.VNum 10);
                           ("Placement", Attrs.VName "Inline")]] in
  Attrs.map_get (Attrs.cssMap ds) "display" = Some "inline"
  /\ Attrs.getCSSProperties ds = "display: inline; margin-top: 10px; ".
Proof. vm_compute. split; reflexivity. Qed.

(** Claim C6, as amended. Both cascades are plain last-writer-wins for
    every key, [display] included: the value of key [k] in the final
    [cssMap] is the last write to [k] over the dictionaries taken in the
    order List, Table and unknown owners, Layout, CSS; in the final
    [attrMap] it is the last write to [k] in the order List, Table and
    unknown owners, Layout, HTML, CSS, ARIA. *)
Theorem cascade_last_writer_wins (ds : list Attrs.attr_dict) (k : string) :
  Attrs.map_get (Attrs.cssMap ds) k
  = Attrs.last_write k (concat (map Attrs.css_writes (Attrs.css_order ds)))
  /\ Attrs.map_get (Attrs.attrMap ds) k
  = Attrs.last_write k (concat (map Attrs.html_writes (Attrs.html_order ds))).
Proof.
  split; [unfold Attrs.cssMap | unfold Attrs.attrMap];
    apply AttrsFacts.map_get_fold_writes.
Qed.

(** The example of the cascade: a Layout [TextAlign] of [Center] and a
    CSS-owned [TextAlign] of [Right] resolve to [text-align: right]. *)
Lemma layout_center_css_right :
  Attrs.getCSSProperties
    [Attrs.mkAttr [("O", Attrs.VName "CSS-2.00"); ("TextAlign", Attrs.VName "Right")];
     Attrs.mkAttr [("O", Attrs.VName "Layout"); ("TextAlign", Attrs.VName "Center")]]
  = "text-align: right; ".
Proof. vm_compute. reflexivity. Qed.

(** Claim C7, counterexample. The content id 0 is declared twice with
    different [/Lang] values: the stored properties are those of the
    second declaration. *)
Lemma mcid_redeclared_last_wins :
  Extract.getProperties
    (Extract.extractOperators
       [Extract.OpBeginMarkedContentProps "Span"
          (Extract.PropsDict (Some 0%Z) (Some "en") None None None);
        Extract.OpEndMarkedContent;
        Extract.OpBeginMarkedContentProps "Span"
          (Extract.PropsDict (Some 0%Z) (Some "fr") None None None);
        Extract.OpEndMarkedContent]
       (Extract.mkExtractor ∅ ∅ ∅ ∅))
    0%Z
  = Some (Extract.mkProps (Some "fr") None None None).
Proof. vm_compute. reflexivity. Qed.

(** Claim C7, as amended. After the operator loop, the properties stored
    for content id [m] are those of the last [BDC] declaration of [m]
    with at least one non-empty property ([Lang], [ActualText], [Alt],
    [E]); declarations without properties leave them unchanged, and if
    there is no such declaration the table is as before. *)
Theorem extract_props_last_declaration (ops : list Extract.op)
    (ex : Extract.extractor) (m : Z) :
  Extract.getProperties (Extract.extractOperators ops ex) m
  = match ExtractSpec.last_declared_props m ops with
    | Some p => Some p
    | None => Extract.getProperties ex m
    end.
Proof.
  unfold Extract.getProperties, Extract.extractOperators.
  apply (ExtractFacts.fold_extract_props ops ([], ex) m).
Qed.

(** Claim C9, counterexample. Nothing is recorded for content id 0 but
    its properties carry an [Alt]: the leaf renders to a non-empty
    [span] element. *)
Lemma alt_only_mcid_renders_span :
  Extract.fetchContentForMCID (fun _ _ _ => "") (fun _ => None) 0%Z
    (Extract.mkExtractor ∅ ∅ ∅ {[0%Z := Extract.mkProps None None (Some "logo") None]})
    0%Z None None false false
  = ("<span title=" ++ Html.dq ++ "logo" ++ Html.dq ++ "></span>", "").
Proof. vm_compute. reflexivity. Qed.

(** Claim C9, as amended. For a content id with no recorded text, images
    or operators, the lookups return the empty string and empty lists,
    and [fetchContentForMCID] (a total function: absence of content
    raises nothing) depends only on the recorded properties. Let [R] be
    the [ActualText] property (empty if absent), cut to its part between
    leading and trailing white space when [trimText] is set. On a page
    that is found: if [R] is not empty, the text is [R] and the markup
    is [R] escaped, or, with a [Lang] property, a [span] with [lang] (and
    [title] from [Alt]) around the escaped middle part, between the
    escaped edge white space unless [trimText]; if [R] is empty, the
    text is empty and the markup is an empty [span] titled with the
    escaped [Alt] if there is one, and empty otherwise. *)
Theorem empty_mcid_renders_empty image_html renderVectorGraphics
    (ex : Extract.extractor) (mcid pageIndex : Z) (bbox : option box)
    (imageAlt : option string) (preferVector trimText : bool)
    (Htext : Extract.mcidToText ex !! mcid = None)
    (Himg : Extract.mcidToImages ex !! mcid = None)
    (Hops : Extract.mcidToOps ex !! mcid = None) :
  Extract.getText ex mcid = "" /\ Extract.getImages ex mcid = []
  /\ Extract.getOperators ex mcid = []
  /\ let field f :=
       match Extract.getProperties ex mcid with
       | Some p => Extract.truthy (f p) | None => None end in
     let rawText := match field Extract.pActualText with Some a => a | None => "" end in
     let '(lead, core, trail) := Extract.splitEdgeWhitespace rawText in
     let R := if trimText then core else rawText in
     Extract.fetchContentForMCID image_html renderVectorGraphics pageIndex ex mcid
       bbox imageAlt preferVector trimText
     = if (pageIndex =? -1)%Z then ("", "")
       else if negb (Str.eqs R "") then
         (match field Extract.pLang with
          | Some l =>
              (if trimText then "" else escapeHtml lead)
              ++ "<span lang=" ++ dq ++ escapeHtml l ++ dq
              ++ match field Extract.pAlt with
                 | Some a => " title=" ++ dq ++ escapeHtml a ++ dq
                 | None => "" end
              ++ ">" ++ escapeHtml core ++ "</span>"
              ++ (if trimText then "" else escapeHtml trail)
          | None => escapeHtml R
          end, R)
       else match field Extract.pAlt with
            | Some a => ("<span title=" ++ dq ++ escapeHtml a ++ dq ++ "></span>", "")
            | None => ("", "")
            end.
Proof.
  assert (Gt : Extract.getText ex mcid = "")
    by (unfold Extract.getText; rewrite Htext; reflexivity).
  assert (Gi : Extract.getImages ex mcid = [])
    by (unfold Extract.getImages; rewrite Himg; reflexivity).
  assert (Go : Extract.getOperators ex mcid = [])
    by (unfold Extract.getOperators; rewrite Hops; reflexivity).
  split; [exact Gt|]. split; [exact Gi|]. split; [exact Go|].
  cbv zeta. unfold Extract.fetchContentForMCID, Extract.hasVectorOperators.
  rewrite Gi, Go, Gt.
  set (raw := match match Extract.getProperties ex mcid with
                    | Some p => Extract.truthy (Extract.pActualText p) | None => None end
              with Some a => a | None => "" end).
  assert (Hraw : match Extract.getProperties ex mcid with
                 | Some p => match Extract.truthy (Extract.pActualText p) with
                             | Some a => a | None => "" end
                 | None => "" end = raw).
  { subst raw. destruct (Extract.getProperties ex mcid); reflexivity. }
  rewrite Hraw.
  destruct (Extract.splitEdgeWhitespace raw) as [[l c] t] eqn:Hs.
  pose proof (TextFacts.split_edge_concat _ _ _ _ Hs) as Hcat.
  destruct (pageIndex =? -1)%Z; [reflexivity|].
  assert (Hv : forall b : option box,
            match b with Some _ => existsb Extract.is_vector_op [] | None => false end = false)
    by (intros [?|]; reflexivity).
  rewrite Hv. change (String.concat "" (map (image_html bbox imageAlt) [])) with "".
  cbn [length Nat.eqb negb]. rewrite !andb_false_r. cbn [negb andb].
  rewrite andb_true_r, TextFacts.escapeHtml_eqs_empty.
  destruct trimText.
  - destruct (Str.eqs c "") eqn:Ec; cbn [negb].
    + destruct (Extract.getProperties ex mcid) as [p|];
        [destruct (Extract.truthy (Extract.pAlt p)) | ]; reflexivity.
    + change (escapeHtml "") with "". rewrite !TextFacts.str_app_nil_r.
      destruct (Extract.getProperties ex mcid) as [p|];
        [destruct (Extract.truthy (Extract.pLang p)) | ]; reflexivity.
  - destruct (Str.eqs raw "") eqn:Er; cbn [negb].
    + destruct (Extract.getProperties ex mcid) as [p|];
        [destruct (Extract.truthy (Extract.pAlt p)) | ]; reflexivity.
    + rewrite <- Hcat, !TextFacts.escapeHtml_app.
      destruct (Extract.getProperties ex mcid) as [p|];
        [destruct (Extract.truthy (Extract.pLang p)) | ]; reflexivity.
Qed.

Lemma empty_mcid_renders_empty_witness :
  Extract.fetchContentForMCID (fun _ _ _ => "") (fun _ => None) 0%Z
    (Extract.mkExtractor ∅ ∅ ∅ {[0%Z := Extract.mkProps (Some "en") (Some " a<b ") None None]})
    0%Z None None false true
  = ("<span lang=" ++ dq ++ "en" ++ dq ++ ">a&lt;b</span>", "a<b").
Proof.
  pose proof (empty_mcid_renders_empty (fun _ _ _ => "") (fun _ => None)
    (Extract.mkExtractor ∅ ∅ ∅ {[0%Z := Extract.mkProps (Some "en") (Some " a<b ") None None]})
    0%Z 0%Z None None false true) as H0.
  specialize (H0 eq_refl eq_refl eq_refl). destruct H0 as (_ & _ & _ & H).
  vm_compute in H. vm_compute. exact H.
Defined.

(** Claim C10, failing input. The [Summary] string of a Table attribute
    dictionary reaches the attribute string of [getHTMLAttributes], which
    [processStructElement] splices into the start tag, without
    [escapeHtml]: its double quote closes the [abbr] value and opens a
    new attribute, whereas [escapeHtml] would have changed the string. *)
Theorem table_summary_not_escaped :
  let payload := "x" ++ Html.dq ++ " onmouseover=" ++ Html.dq ++ "alert(1)" in
  Attrs.getHTMLAttributes
    [Attrs.mkAttr [("O", Attrs.VName "Table"); ("Summary", Attrs.VStr payload)]]
  = " abbr=" ++ Html.dq ++ payload ++ Html.dq
  /\ Html.escapeHtml payload <> payload.
Proof. vm_compute. split; [reflexivity | discriminate]. Qed.

End Claims.

Module IdsFacts.
Import Text TextFacts Ids.

Lemma pretty_N_char_digit x : Str.is_digit (pretty_N_char x) = true.
Proof. unfold pretty_N_char. repeat case_match; reflexivity. Qed.

Lemma pretty_N_go_digits x s :
  all_chars Str.is_digit (pretty_N_go x s) = all_chars Str.is_digit s.
Proof.
  revert s. induction (N.lt_wf_0 x) as [x _ IH]; intros s.
  destruct (decide (x = 0)%N) as [->|Hx]; [reflexivity|].
  rewrite pretty_N_go_step by lia. rewrite IH.
  - cbn [all_chars]. rewrite pretty_N_char_digit. reflexivity.
  - apply N.div_lt; lia.
Qed.

Lemma pretty_N_digits (x : N) : all_chars Str.is_digit (pretty x) = true.
Proof.
  unfold pretty, pretty_N. case_match; [reflexivity|].
  rewrite pretty_N_go_digits. reflexivity.
Qed.

Lemma split_at_sep p sep x x' y y' :
  all_chars p x = true -> all_chars p x' = true -> p sep = false ->
  x ++ String sep y = x' ++ String sep y' -> x = x' /\ y = y'.
Proof.
  revert x'. induction x as [|a x IH]; intros x' Hx Hx' Hs E; destruct x' as [|b x'].
  - rewrite !str_app_nil_l in E. injection E as E. auto.
  - rewrite str_app_nil_l, str_app_cons in E. injection E as <- _.
    cbn [all_chars] in Hx'. rewrite Hs in Hx'. discriminate.
  - rewrite str_app_nil_l, str_app_cons in E. injection E as -> _.
    cbn [all_chars] in Hx. rewrite Hs in Hx. discriminate.
  - rewrite !str_app_cons in E. injection E as <- E.
    cbn [all_chars] in Hx, Hx'. apply andb_prop in Hx as [_ Hx]. apply andb_prop in Hx' as [_ Hx'].
    destruct (IH x' Hx Hx' Hs E) as [-> ->]. auto.
Qed.

Lemma pretty_pair_inj sep (a b a' b' : N) :
  Str.is_digit sep = false ->
  pretty a ++ String sep (pretty b) = pretty a' ++ String sep (pretty b') -> a = a' /\ b = b'.
Proof.
  intros Hs E. destruct (split_at_sep _ _ _ _ _ _ (pretty_N_digits a) (pretty_N_digits a') Hs E) as [E1 E2].
  split; apply (inj pretty); assumption.
Qed.

Lemma getRefKey_inj n g n' g' : getRefKey n g = getRefKey n' g' -> n = n' /\ g = g'.
Proof. unfold getRefKey. apply pretty_pair_inj. reflexivity. Qed.

Lemma ref_id_inj (n g n' g' : N) :
  "pdf-se-" ++ pretty n ++ "-" ++ pretty g = "pdf-se-" ++ pretty n' ++ "-" ++ pretty g' ->
  n = n' /\ g = g'.
Proof.
  intros E. rewrite !str_app_cons, !str_app_nil_l in E. injection E as E.
  apply (pretty_pair_inj "-"); [reflexivity | exact E].
Qed.

Lemma ref_id_dict_id_ne (n g k : N) :
  "pdf-se-" ++ pretty n ++ "-" ++ pretty g <> "pdf-se-" ++ pretty k.
Proof.
  intros E. rewrite !str_app_cons, !str_app_nil_l in E. injection E as E.
  pose proof (pretty_N_digits k) as Hk. rewrite <- E, all_chars_app in Hk.
  cbn [all_chars] in Hk. rewrite andb_false_l, andb_false_r in Hk.
  discriminate.
Qed.

Lemma dict_id_inj (k k' : N) : "pdf-se-" ++ pretty k = "pdf-se-" ++ pretty k' -> k = k'.
Proof.
  intros E. rewrite !str_app_cons, !str_app_nil_l in E. injection E as E.
  apply (inj pretty) in E. exact E.
Qed.

Lemma ids_invariant_initial : ids_invariant initial_state.
Proof.
  split; [|split]; cbn.
  - intros k v H. rewrite lookup_empty in H. discriminate.
  - intros d v H. rewrite lookup_empty in H. discriminate.
  - intros d1 d2 v H. rewrite lookup_empty in H. discriminate.
Qed.

Lemma truthy_pdf_se (x : string) : Render.truthy (Some ("pdf-se-" ++ x)) = Some ("pdf-se-" ++ x).
Proof. reflexivity. Qed.

Lemma ensure_step c d st id st' :
  ids_invariant st -> ensureGeneratedId c d st = (id, st') ->
  ids_invariant st' /\ assigned st' (element_key (c, d)) = Some id /\
  (forall k v, assigned st k = Some v -> assigned st' k = Some v).
Proof.
  intros Inv. pose proof Inv as (I1 & I2 & I3).
  unfold ensureGeneratedId, lookupGeneratedId. destruct c as [n g|].
  - destruct (byRef st !! getRefKey n g) as [v|] eqn:Hl.
    + destruct (I1 _ _ Hl) as (n' & g' & _ & ->). rewrite truthy_pdf_se.
      intros E. injection E as <- <-. split; [exact Inv|]. split; [exact Hl|auto].
    + cbn [Render.truthy]. intros E. injection E as <- <-.
      split; [split; [|split]|split].
      * cbn. intros k v Hk. rewrite lookup_insert in Hk. case_decide as Heq.
        -- injection Hk as <-. subst k. eauto.
        -- eauto.
      * exact I2.
      * exact I3.
      * cbn. apply lookup_insert_eq.
      * intros [[n' g']|d'] v; cbn; [|auto]. intros Hk. rewrite lookup_insert_ne; [exact Hk|].
        intros Heq. rewrite Heq in Hl. congruence.
  - destruct (byDict st !! d) as [v|] eqn:Hl.
    + destruct (I2 _ _ Hl) as (k & _ & ->). rewrite truthy_pdf_se.
      intros E. injection E as <- <-. split; [exact Inv|]. split; [exact Hl|auto].
    + cbn [Render.truthy]. intros E. injection E as <- <-.
      split; [split; [|split]|split].
      * exact I1.
      * cbn. intros d' v Hd. rewrite lookup_insert in Hd. case_decide as Heq.
        -- injection Hd as <-. exists (counter st). split; [lia|reflexivity].
        -- destruct (I2 _ _ Hd) as (k & Hk & ->). exists k. split; [lia|reflexivity].
      * cbn. intros d1 d2 v H1 H2.
        apply lookup_insert_Some in H1 as [[<- <-]|[N1 H1]];
          apply lookup_insert_Some in H2 as [[<- E]|[N2 H2]].
        -- reflexivity.
        -- destruct (I2 _ _ H2) as (k & Hk & Hv). apply dict_id_inj in Hv. lia.
        -- subst v. destruct (I2 _ _ H1) as (k & Hk & Hv). apply dict_id_inj in Hv. lia.
        -- eauto.
      * cbn. apply lookup_insert_eq.
      * intros [[n' g']|d'] v; cbn; [auto|]. intros Hk. rewrite lookup_insert_ne; [exact Hk|].
        intros <-. rewrite Hl in Hk. discriminate.
Qed.

Lemma assigned_inj st k1 k2 v :
  ids_invariant st -> assigned st k1 = Some v -> assigned st k2 = Some v -> k1 = k2.
Proof.
  intros (I1 & I2 & I3).
  destruct k1 as [[n1 g1]|d1], k2 as [[n2 g2]|d2]; cbn; intros H1 H2.
  - destruct (I1 _ _ H1) as (a & b & Ka & ->). destruct (I1 _ _ H2) as (a' & b' & Ka' & E).
    apply ref_id_inj in E as [<- <-].
    apply getRefKey_inj in Ka as [-> ->]. apply getRefKey_inj in Ka' as [-> ->]. reflexivity.
  - destruct (I1 _ _ H1) as (a & b & _ & ->). destruct (I2 _ _ H2) as (k & _ & E).
    exfalso. exact (ref_id_dict_id_ne a b k E).
  - destruct (I1 _ _ H2) as (a & b & _ & ->). destruct (I2 _ _ H1) as (k & _ & E).
    exfalso. exact (ref_id_dict_id_ne a b k E).
  - f_equal. eauto.
Qed.

Lemma run_calls_spec calls st ids st' :
  ids_invariant st -> run_calls calls st = (ids, st') ->
  ids_invariant st' /\
  (forall i call, calls !! i = Some call ->
     exists id, ids !! i = Some id /\ assigned st' (element_key call) = Some id) /\
  (forall k v, assigned st k = Some v -> assigned st' k = Some v).
Proof.
  revert st ids. induction calls as [|[c d] calls IH]; intros st ids Inv E.
  - cbn in E. injection E as <- <-. split; [exact Inv|]. split; [|auto].
    intros i call H. rewrite lookup_nil in H. discriminate.
  - cbn [run_calls] in E.
    destruct (ensureGeneratedId c d st) as [id1 st1] eqn:E1.
    destruct (run_calls calls st1) as [ids1 st2] eqn:E2. injection E as <- <-.
    destruct (ensure_step _ _ _ _ _ Inv E1) as (Inv1 & A1 & P1).
    destruct (IH _ _ Inv1 E2) as (Inv2 & A2 & P2).
    split; [exact Inv2|]. split; [|auto].
    intros [|i] call H; cbn in H.
    + injection H as <-. exists id1. split; [reflexivity|auto].
    + exact (A2 i call H).
Qed.

End IdsFacts.

Module ListLabelsFacts.
Import Text TextFacts ListLabels.

Lemma span_all p s : all_chars p (fst (span p s)) = true.
Proof.
  induction s as [|c s IH]; [reflexivity|]. cbn [span].
  destruct (p c) eqn:E; [|reflexivity].
  destruct (span p s) as [a b]. cbn [fst all_chars] in *. rewrite E. exact IH.
Qed.

Lemma first_run_None p s : first_run p s = None <-> all_chars (fun c => negb (p c)) s = true.
Proof.
  induction s as [|c s IH]; [split; reflexivity|]. cbn [first_run all_chars].
  destruct (p c) eqn:E; cbn [negb andb].
  - split; discriminate.
  - exact IH.
Qed.

Lemma first_run_Some p s letters :
  first_run p s = Some letters ->
  all_chars p letters = true /\ exists c r, letters = String c r.
Proof.
  revert letters. induction s as [|c s IH]; intros letters; [discriminate|]. cbn [first_run].
  destruct (p c) eqn:E; [|exact (IH letters)].
  intros H. injection H as <-. split; [apply (span_all p (String c s))|].
  cbn [span]. rewrite E. destruct (span p s). eauto.
Qed.

End ListLabelsFacts.

Module RolesSource.
Import Roles.

Lemma resolve_loop_source fuel rm role current seen :
  (current = role \/ exists m k, rm = Some m /\ m !! k = Some current) ->
  current <> "" ->
  let r := resolve_loop fuel rm current seen in
  (r = role \/ exists m k, rm = Some m /\ m !! k = Some r) /\ r <> "".
Proof.
  revert current seen. induction fuel as [|f IH]; intros current seen Hc Hne; cbn [resolve_loop]; [auto|].
  unfold loop_body. destruct rm as [m|]; [|auto].
  destruct (m !! current) as [next|] eqn:Hn; [|auto].
  destruct (bool_decide (current ∈ seen)); [auto|].
  destruct (Str.eqs next "") eqn:He; [auto|].
  assert (Hv : exists m' k, Some m = Some m' /\ m' !! k = Some next) by eauto.
  assert (Hne' : next <> "").
  { intros ->. discriminate He. }
  destruct (isStandardType next); [auto|].
  apply IH; auto.
Qed.

End RolesSource.

Module CaptionsFacts.
Import Captions.

Lemma reorder_fold {A} info rm (children : list A) caps others :
  fold_left (reorder_step info rm) children (caps, others)
  = (caps ++ List.filter (is_caption info rm) children,
     others ++ List.filter (fun c => negb (is_caption info rm c)) children)%list.
Proof.
  revert caps others. induction children as [|c cs IH]; intros caps others.
  - cbn. rewrite !app_nil_r. reflexivity.
  - cbn [fold_left List.filter]. unfold reorder_step at 2.
    destruct (is_caption info rm c); cbn [negb]; rewrite IH, <- !app_assoc; reflexivity.
Qed.

End CaptionsFacts.

Module TextItemsFacts.
Import Text TextFacts TextItems.

Lemma foldr_append_lookup (l : list Z) piece (m : gmap Z string) k :
  NoDup l ->
  foldr (fun mcid acc => <[mcid := default "" (acc !! mcid) ++ piece]> acc) m l !! k
  = if decide (k ∈ l) then Some (default "" (m !! k) ++ piece) else m !! k.
Proof.
  induction l as [|x l IH]; intros Hnd; cbn [foldr].
  - destruct (decide (k ∈ [])) as [H|]; [inversion H|reflexivity].
  - apply NoDup_cons in Hnd as [Hx Hnd]. rewrite lookup_insert.
    destruct (decide (x = k)) as [->|Hne].
    + rewrite IH by exact Hnd. destruct (decide (k ∈ l)); [contradiction|].
      destruct (decide (k ∈ k :: l)) as [_|H]; [reflexivity|]. exfalso. apply H. left.
    + rewrite IH by exact Hnd.
      destruct (decide (k ∈ l)) as [H|H]; destruct (decide (k ∈ x :: l)) as [H'|H'];
        try reflexivity.
      * exfalso. apply H'. right. exact H.
      * apply elem_of_cons in H' as [->|H']; [congruence|contradiction].
Qed.

Lemma append_text_lookup target piece m k :
  append_text target piece m !! k
  = if decide (k ∈ target) then Some (default "" (m !! k) ++ piece) else m !! k.
Proof.
  unfold append_text, set_fold. cbn. rewrite foldr_append_lookup by apply NoDup_elements.
  destruct (decide (k ∈ elements target)) as [H|H], (decide (k ∈ target)) as [H'|H'];
    try reflexivity; exfalso.
  - apply H'. apply elem_of_elements. exact H.
  - apply H. apply elem_of_elements. exact H'.
Qed.

Lemma active_single m : active_mcids [[m]] = {[m]}.
Proof. unfold active_mcids. cbn. set_solver. Qed.

Lemma eqs_false_ne s t : Str.eqs s t = false <-> s <> t.
Proof. unfold Str.eqs. rewrite <- String.eqb_eq. destruct (s =? t)%string; intuition discriminate. Qed.

Lemma eqs_true_eq s t : Str.eqs s t = true <-> s = t.
Proof. unfold Str.eqs. apply String.eqb_eq. Qed.

Lemma region_step st m s e :
  textStack st = [[m]] -> (m ∈ mcidHasContent st \/ Str.trim s <> "") ->
  let st' := process_item st (TextItem s e) in
  textStack st' = [[m]] /\ (m ∈ mcidHasContent st' \/ Str.eqs s "" = true) /\
  default "" (mcidToText st' !! m) = default "" (mcidToText st !! m) ++ item_piece s e /\
  (forall k, k <> m -> mcidToText st' !! k = mcidToText st !! k).
Proof.
  intros Hs Hm. cbn zeta. unfold process_item, item_piece.
  destruct (Str.eqs s "") eqn:Es.
  { rewrite str_app_nil_r. auto. }
  rewrite Hs, active_single.
  rewrite bool_decide_eq_false_2 by set_solver.
  set (piece := s ++ (if e then String "010"%char "" else "")).
  assert (Hk : forall k, append_text {[m]} piece (mcidToText st) !! k
               = if decide (k = m) then Some (default "" (mcidToText st !! m) ++ piece) else mcidToText st !! k).
  { intros k. rewrite append_text_lookup.
    destruct (decide (k ∈ {[m]})) as [H|H], (decide (k = m)) as [->|H'];
      try reflexivity; set_solver. }
  assert (Hm' : default "" (append_text {[m]} piece (mcidToText st) !! m)
                = default "" (mcidToText st !! m) ++ piece).
  { rewrite Hk. destruct (decide (m = m)); [reflexivity|congruence]. }
  assert (Hk' : forall k, k <> m -> append_text {[m]} piece (mcidToText st) !! k = mcidToText st !! k).
  { intros k Hne. rewrite Hk. destruct (decide (k = m)); [congruence|reflexivity]. }
  destruct (Str.eqs (Str.trim s) "") eqn:Ew.
  - destruct Hm as [Hm|Hm]; [|apply eqs_true_eq in Ew; contradiction].
    rewrite (bool_decide_eq_false_2 ({[m]} ∩ mcidHasContent st = ∅)) by set_solver.
    cbn [negb andb]. cbn [textStack mcidHasContent mcidToText].
    split; [reflexivity|]. split; [left; exact Hm|]. split; [exact Hm'|exact Hk'].
  - cbn [andb]. cbn [textStack mcidHasContent mcidToText].
    split; [reflexivity|]. split; [left; set_solver|]. split; [exact Hm'|exact Hk'].
Qed.

Lemma region_rest st m rest :
  textStack st = [[m]] -> m ∈ mcidHasContent st ->
  let st' := fold_left process_item (map (fun '(s, e) => TextItem s e) rest) st in
  textStack st' = [[m]] /\ m ∈ mcidHasContent st' /\
  default "" (mcidToText st' !! m)
  = default "" (mcidToText st !! m) ++ String.concat "" (map (fun '(s, e) => item_piece s e) rest) /\
  (forall k, k <> m -> mcidToText st' !! k = mcidToText st !! k).
Proof.
  revert st. induction rest as [|[s e] rest IH]; intros st Hs Hm; cbn zeta.
  - cbn. rewrite str_app_nil_r. auto.
  - cbn [map fold_left].
    destruct (region_step st m s e Hs (or_introl Hm)) as (Hs1 & Hm1 & Ht1 & Ho1).
    assert (Hm1' : m ∈ mcidHasContent (process_item st (TextItem s e))).
    { destruct Hm1 as [H|H]; [exact H|]. unfold process_item. rewrite H. exact Hm. }
    destruct (IH _ Hs1 Hm1') as (Hs2 & Hm2 & Ht2 & Ho2).
    split; [exact Hs2|]. split; [exact Hm2|]. split.
    + rewrite Ht2, Ht1, str_app_assoc. f_equal.
      destruct rest as [|r rest']; [cbn; rewrite str_app_nil_r; reflexivity|reflexivity].
    + intros k Hk. rewrite Ho2, Ho1 by exact Hk. reflexivity.
Qed.

End TextItemsFacts.

Module OpsFacts.
Import Extract.

Lemma push_fold_lookup {A} (l : list Z) (x : A) (M : gmap Z (list A)) k :
  default [] (fold_left (fun m mcid => push_to m mcid x) l M !! k)
  = app (default [] (M !! k)) (repeat x (count_occ Z.eq_dec l k)).
Proof.
  revert M. induction l as [|y l IH]; intros M; cbn [fold_left count_occ repeat].
  - rewrite app_nil_r. reflexivity.
  - rewrite IH. unfold push_to. rewrite lookup_insert.
    destruct (decide (y = k)) as [->|Hne]; destruct (Z.eq_dec k k) as [_|]; try congruence.
    + destruct (M !! k); cbn [default id repeat];
        rewrite <- app_assoc; reflexivity.
    + destruct (Z.eq_dec y k); [congruence|reflexivity].
Qed.

Lemma getOperators_default ex m : getOperators ex m = default [] (mcidToOps ex !! m).
Proof. unfold getOperators. destruct (mcidToOps ex !! m); reflexivity. Qed.

Lemma getOperators_step stack ex o m :
  match o with
  | OpBeginMarkedContentProps _ _ | OpBeginMarkedContent | OpEndMarkedContent => False
  | _ => True
  end ->
  fst (extract_step (stack, ex) o) = stack /\
  getOperators (snd (extract_step (stack, ex) o)) m
  = app (getOperators ex m) (repeat o (count_occ Z.eq_dec (active_mcids stack) m)).
Proof.
  intros Ho. rewrite !getOperators_default.
  destruct o; try contradiction; cbn [extract_step fst snd recordOp recordImage mcidToOps];
    (split; [reflexivity|]); apply push_fold_lookup.
Qed.

End OpsFacts.

Module Extras.
Import Html Text TextFacts Ids IdsFacts ListLabels ListLabelsFacts TextItems TextItemsFacts.

(** Extra X2. The output of [escapeHtml] never contains the characters
    [<], [>], the double quote or the single quote: each of them is
    replaced by an entity, and the entities introduce none of them. *)
Theorem escapeHtml_no_markup_chars s :
  contains_char "<" (escapeHtml s) = false /\ contains_char ">" (escapeHtml s) = false
  /\ contains_char (ascii_of_nat 34) (escapeHtml s) = false
  /\ contains_char "'" (escapeHtml s) = false.
Proof. exact (escape_special_free s). Qed.

(** Extra X3. [decodeHtmlEntities] undoes [escapeHtml]: decoding the
    escaped form of any string gives the string back. *)
Theorem decode_escapeHtml_round_trip s : decodeHtmlEntities (escapeHtml s) = s.
Proof. exact (decode_escape_full s). Qed.

(** Extra X4. [extractTextFromHtml] of one element whose start tag begins
    with a letter and is not a script or style tag, whose content is an
    escaped text, and whose end tag holds no [>], gives back the text:
    the tags are dropped and the entities produced by [escapeHtml] are
    decoded. *)
Theorem extract_escaped_element c o cl s :
  is_alpha c = true ->
  contains_char ">" (String c o) = false ->
  contains_char ">" cl = false ->
  String.prefix "script" (Str.toLowerCase (Str.trim (String c o))) = false ->
  String.prefix "style" (Str.toLowerCase (Str.trim (String c o))) = false ->
  extractTextFromHtml ("<" ++ String c o ++ ">" ++ escapeHtml s ++ "</" ++ cl ++ ">") = s.
Proof.
  intros Ha Ho Hcl Hsc Hst.
  unfold extractTextFromHtml, Str.eqs.
  rewrite str_app_cons, str_app_nil_l. cbn [String.eqb].
  set (rest := "</" ++ cl ++ ">").
  cbn [String.length extract_go]. rewrite Ascii.eqb_refl.
  assert (Hpre : String.prefix "<!--" (String "<" (String c o ++ ">" ++ escapeHtml s ++ rest)) = false).
  { rewrite str_app_cons. cbn [String.prefix].
    destruct (ascii_dec "<" "<"); [|congruence].
    destruct (ascii_dec "!" c) as [<-|]; [discriminate Ha|reflexivity]. }
  rewrite Hpre. rewrite (index_of_gt (String c o) _ Ho).
  rewrite take_app.
  replace (S (String.length (String c o))) with (String.length (String c o) + 1)%nat by lia.
  rewrite drop_app_add.
  rewrite Hsc, Hst. cbn [orb].
  rewrite !str_length_app.
  replace (String.length (String c o) + (String.length ">" + (String.length (escapeHtml s) + String.length rest)))%nat
    with (String.length (escapeHtml s) + (String.length rest + String.length (String c o) + 1))%nat
    by (cbn [String.length]; lia).
  change (drop 1 (">" ++ escapeHtml s ++ rest)) with (escapeHtml s ++ rest).
  rewrite extract_plain by apply escape_special_free.
  rewrite str_app_nil_l.
  unfold rest. rewrite !str_app_cons, !str_app_nil_l.
  replace (String "/" (cl ++ ">")) with (String "/" cl ++ ">" ++ "")
    by (rewrite str_app_nil_r; reflexivity).
  cbn [String.length Nat.add extract_go]. rewrite Ascii.eqb_refl.
  assert (Hcl' : contains_char ">" (String "/" cl) = false) by exact Hcl.
  rewrite (index_of_gt _ _ Hcl'), take_app.
  replace (S (String.length (String "/" cl))) with (String.length (String "/" cl) + 1)%nat by lia.
  rewrite drop_app_add.
  destruct (trim_first "/" cl ltac:(vm_compute; lia) eq_refl) as [t ->].
  replace (Str.toLowerCase (String "/" t)) with (String "/" (Str.toLowerCase t)) by reflexivity.
  rewrite str_app_cons. cbn [String.prefix orb].
  destruct (ascii_dec "<" "<"); [|congruence].
  destruct (ascii_dec "!" "/"); [discriminate|].
  destruct (ascii_dec "s" "/"); [discriminate|].
  change (drop 1 (">" ++ "")) with "".
  match goal with |- context [extract_go ?f] => destruct f end;
    apply decode_escape_full.
Qed.

Lemma extract_escaped_element_witness :
  extractTextFromHtml ("<" ++ "span lang=en" ++ ">" ++ escapeHtml "a<b & c" ++ "</" ++ "span" ++ ">")
  = "a<b & c".
Proof.
  apply (extract_escaped_element "s" "pan lang=en" "span" "a<b & c");
    vm_compute; reflexivity.
Defined.

(** Extra X5. [splitEdgeWhitespace] cuts a text into three parts that
    concatenate back to it: the characters of the text are a leading
    run of JavaScript white space, a core, and a trailing run of white
    space, where the core neither starts nor ends with white space, and
    the trailing run is empty when the core is (a text made only of
    white space is all leading). *)
Theorem splitEdgeWhitespace_spec text l c t :
  Extract.splitEdgeWhitespace text = (l, c, t) ->
  l ++ c ++ t = text /\
  exists lead core trail,
    Str.chars text = app lead (app core trail) /\
    l = Str.concat lead /\ c = Str.concat core /\ t = Str.concat trail /\
    Forall (fun ch => Str.is_ws ch = true) lead /\
    Forall (fun ch => Str.is_ws ch = true) trail /\
    (forall ch r, core = ch :: r -> Str.is_ws ch = false) /\
    (forall r ch, core = app r [ch] -> Str.is_ws ch = false) /\
    (core = [] -> trail = []).
Proof.
  intros Hs. split; [exact (split_edge_concat _ _ _ _ Hs)|].
  revert Hs. unfold Extract.splitEdgeWhitespace.
  destruct (Str.span_ws (Str.chars text)) as [w rest] eqn:E1.
  destruct (Str.span_ws (rev rest)) as [tr cr] eqn:E2.
  intros E. injection E as <- <- <-.
  destruct (span_ws_spec _ _ _ E1) as (A1 & A2 & A3).
  destruct (span_ws_spec _ _ _ E2) as (B1 & B2 & B3).
  assert (Hrest : rest = app (rev cr) (rev tr)).
  { rewrite <- rev_app_distr, <- B1, rev_involutive. reflexivity. }
  exists w, (rev cr), (rev tr).
  split; [rewrite A1, Hrest; reflexivity|].
  split; [reflexivity|]. split; [reflexivity|]. split; [reflexivity|].
  split; [exact A2|]. split; [apply Forall_rev; exact B2|]. split; [|split].
  - intros ch r Hr. apply (A3 ch (app r (rev tr))). rewrite Hrest, Hr. reflexivity.
  - intros r ch Hr. apply (B3 ch (rev r)).
    rewrite <- (rev_involutive cr), Hr, rev_app_distr. reflexivity.
  - intros Hc. rewrite Hc in Hrest. cbn [app] in Hrest.
    destruct rest as [|x rest'].
    + destruct tr as [|y tr']; [reflexivity|].
      apply (f_equal (@length string)) in Hrest.
      rewrite length_rev in Hrest. discriminate.
    + exfalso. pose proof (A3 x rest' eq_refl) as Hx.
      assert (Hin : In x (rev tr)) by (rewrite <- Hrest; left; reflexivity).
      apply in_rev in Hin. rewrite List.Forall_forall in B2.
      rewrite (B2 x Hin) in Hx. discriminate.
Qed.

Lemma splitEdgeWhitespace_spec_witness :
  let text := " " ++ Str.utf8 160 ++ "a b" ++ Str.utf8 12288 in
  Extract.splitEdgeWhitespace text = (" " ++ Str.utf8 160, "a b", Str.utf8 12288) /\
  (" " ++ Str.utf8 160) ++ "a b" ++ Str.utf8 12288 = text.
Proof.
  intros text.
  assert (H : Extract.splitEdgeWhitespace text = (" " ++ Str.utf8 160, "a b", Str.utf8 12288))
    by (vm_compute; reflexivity).
  split; [exact H|].
  exact (proj1 (splitEdgeWhitespace_spec text _ _ _ H)).
Defined.

(** Extra X6. Along a sequence of [ensureGeneratedId] calls sharing the
    state created by [traverseStructure], two calls return the same id
    exactly when they are about the same element: the same [Ref]
    (object and generation numbers), or the same dictionary object for
    a child that is not a [Ref]. *)
Theorem generated_ids_identify_elements calls ids st i j ci cj :
  run_calls calls initial_state = (ids, st) ->
  calls !! i = Some ci -> calls !! j = Some cj ->
  (ids !! i = ids !! j <-> element_key ci = element_key cj).
Proof.
  intros E Hi Hj.
  destruct (run_calls_spec _ _ _ _ ids_invariant_initial E) as (Inv & A & _).
  destruct (A _ _ Hi) as (a & -> & Ha). destruct (A _ _ Hj) as (b & -> & Hb).
  split.
  - intros Hab. injection Hab as <-. exact (assigned_inj _ _ _ _ Inv Ha Hb).
  - intros Hk. rewrite Hk, Hb in Ha. congruence.
Qed.

Lemma generated_ids_identify_elements_witness :
  let calls := [(RefChild 3 0, 7%nat); (NotRef, 5%nat); (RefChild 3 0, 8%nat); (NotRef, 6%nat)] in
  fst (run_calls calls initial_state) = ["pdf-se-3-0"; "pdf-se-1"; "pdf-se-3-0"; "pdf-se-2"] /\
  fst (run_calls calls initial_state) !! 0%nat = fst (run_calls calls initial_state) !! 2%nat /\
  fst (run_calls calls initial_state) !! 1%nat <> fst (run_calls calls initial_state) !! 3%nat.
Proof.
  intros calls. split; [vm_compute; reflexivity|]. split.
  - apply (generated_ids_identify_elements calls _ (snd (run_calls calls initial_state))
             0 2 (RefChild 3 0, 7%nat) (RefChild 3 0, 8%nat)); reflexivity.
  - rewrite (generated_ids_identify_elements calls _ (snd (run_calls calls initial_state))
             1 3 (NotRef, 5%nat) (NotRef, 6%nat)); try reflexivity.
    discriminate.
Defined.

(** Extra X8. [parseListType] returns [null] for a label text exactly
    when the text has no ASCII letter: once [/[A-Za-z]+/] matches, the
    Roman or the alphabetic branch answers, and its final [return null]
    is never reached. *)
Theorem parseListType_null_iff_no_letter t :
  parseListType (Some t) = None <-> all_chars (fun c => negb (is_alpha c)) t = true.
Proof.
  unfold parseListType. split.
  - destruct (Str.eqs t "") eqn:Et.
    + intros _. unfold Str.eqs in Et. apply String.eqb_eq in Et as ->. reflexivity.
    + destruct (first_run is_alpha t) as [letters|] eqn:Ef.
      * destruct (first_run_Some _ _ _ Ef) as (Hall & c & r & ->).
        cbn [Str.eqs String.eqb]. rewrite Hall.
        destruct (all_chars is_roman_char _); discriminate.
      * intros _. apply first_run_None. exact Ef.
  - intros H. apply first_run_None in H. rewrite H.
    destruct (Str.eqs t ""); reflexivity.
Qed.

Lemma parseListType_null_iff_no_letter_witness :
  parseListType (Some "12.") = None /\ parseListType (Some "iv.") = Some "i".
Proof.
  split; [|vm_compute; reflexivity].
  apply (proj2 (parseListType_null_iff_no_letter "12.")). vm_compute. reflexivity.
Defined.

(** Extra X9. [resolveRole] never invents a role: its result is the role
    it was given or one of the values of the role map, and it is not
    empty when the given role is not. *)
Theorem resolveRole_result role rm ns :
  let r := Roles.resolveRole role rm ns in
  (r = role \/ exists m k, rm = Some m /\ m !! k = Some r) /\ (role <> "" -> r <> "").
Proof.
  unfold Roles.resolveRole. destruct (Str.eqs role "") eqn:E.
  - cbn. split; [auto|]. intros H. exfalso. apply H. apply String.eqb_eq, E.
  - destruct (Roles.isPdfStandardNamespace ns && Roles.isStandardType role); [cbn; auto|].
    assert (Hne : role <> "") by (intros ->; discriminate E).
    destruct (RolesSource.resolve_loop_source (S (Roles.map_size rm)) rm role role ∅ (or_introl eq_refl) Hne) as [A B].
    auto.
Qed.

(** Extra X10. [reorderCaptionElements] puts the children whose role
    resolves to [Caption] first and the others after, each group in its
    original order; no child is dropped or duplicated. *)
Theorem reorderCaptionElements_partition {A} info rm (children : list A) :
  Captions.reorderCaptionElements info rm children
  = (List.filter (Captions.is_caption info rm) children
     ++ List.filter (fun c => negb (Captions.is_caption info rm c)) children)%list
  /\ Permutation children (Captions.reorderCaptionElements info rm children).
Proof.
  unfold Captions.reorderCaptionElements. rewrite CaptionsFacts.reorder_fold. cbn [app].
  split; [reflexivity|].
  induction children as [|c cs IH]; [constructor|]. cbn [List.filter].
  destruct (Captions.is_caption info rm c); cbn [negb app].
  - constructor. exact IH.
  - apply Permutation_cons_app. exact IH.
Qed.

(** Extra X11. A marked-content region of the text items, opened by a
    [beginMarkedContentProps] item whose [id] yields MCID [m] while no
    region is open, whose first text item is not blank, collects in
    [mcidToText] for [m] every later item string (with a line feed for
    [hasEOL], blank ones included and empty ones skipped), in order; the
    other MCIDs keep their text and the stack is empty again after the
    [endMarkedContent]. *)
Theorem region_text st id m s0 e0 rest :
  textStack st = [] -> item_mcids id = [m] -> Str.trim s0 <> "" ->
  let st' := processTextItems
               (BeginMarkedContentProps id :: TextItem s0 e0
                :: app (map (fun '(s, e) => TextItem s e) rest) [EndMarkedContent]) st in
  textStack st' = [] /\
  default "" (mcidToText st' !! m)
  = default "" (mcidToText st !! m) ++ item_piece s0 e0
    ++ String.concat "" (map (fun '(s, e) => item_piece s e) rest) /\
  (forall k, k <> m -> mcidToText st' !! k = mcidToText st !! k).
Proof.
  intros Hs Hid Hs0. cbn zeta. unfold processTextItems.
  cbn [fold_left]. rewrite fold_left_app. cbn [fold_left].
  set (st1 := process_item st (BeginMarkedContentProps id)).
  assert (Hs1 : textStack st1 = [[m]]) by (cbn; rewrite Hs, Hid; reflexivity).
  destruct (region_step st1 m s0 e0 Hs1 (or_intror Hs0)) as (Hs2 & Hm2 & Ht2 & Ho2).
  assert (Hm2' : m ∈ mcidHasContent (process_item st1 (TextItem s0 e0))).
  { destruct Hm2 as [H|H]; [exact H|]. exfalso. apply eqs_true_eq in H. subst s0. apply Hs0. reflexivity. }
  destruct (region_rest _ m rest Hs2 Hm2') as (Hs3 & _ & Ht3 & Ho3).
  set (st3 := fold_left process_item _ (process_item st1 (TextItem s0 e0))) in *.
  change (textStack (process_item st3 EndMarkedContent)) with (removelast (textStack st3)).
  change (mcidToText (process_item st3 EndMarkedContent)) with (mcidToText st3).
  rewrite Hs3.
  split; [reflexivity|]. split.
  - rewrite Ht3, Ht2, str_app_assoc. reflexivity.
  - intros k Hk. rewrite Ho3, Ho2 by exact Hk. reflexivity.
Qed.

(** Extra X12. A whitespace-only text item in a region none of whose
    MCIDs has received non-blank text yet is appended to the MCIDs of
    the last non-blank text, not to the open region, when there is such
    a last text. *)
Theorem whitespace_goes_to_last_text st text eol :
  text <> "" -> Str.trim text = "" ->
  active_mcids (textStack st) <> ∅ ->
  active_mcids (textStack st) ∩ mcidHasContent st = ∅ ->
  lastTextMcids st <> ∅ ->
  forall k, mcidToText (process_item st (TextItem text eol)) !! k
  = if decide (k ∈ lastTextMcids st)
    then Some (default "" (mcidToText st !! k) ++ item_piece text eol)
    else mcidToText st !! k.
Proof.
  intros Hne Hw Ha Hc Hl k. unfold process_item, item_piece.
  assert (Es : Str.eqs text "" = false) by (apply eqs_false_ne; exact Hne).
  rewrite Es, Hw. cbn [Str.eqs String.eqb].
  rewrite (bool_decide_eq_false_2 (active_mcids (textStack st) = ∅)) by exact Ha.
  rewrite (bool_decide_eq_true_2 (active_mcids (textStack st) ∩ mcidHasContent st = ∅)) by exact Hc.
  rewrite (bool_decide_eq_false_2 (lastTextMcids st = ∅)) by exact Hl.
  cbn [negb andb mcidToText]. apply append_text_lookup.
Qed.

Lemma whitespace_goes_to_last_text_witness :
  let st := mkTextState [[2%Z]] {[1%Z := "Hello"]} {[1%Z]} {[1%Z]} in
  mcidToText (process_item st (TextItem " " false)) !! 1%Z = Some "Hello " /\
  mcidToText (process_item st (TextItem " " false)) !! 2%Z = None.
Proof.
  intros st. split;
    (rewrite (whitespace_goes_to_last_text st " " false)
       by (try discriminate; vm_compute; first [reflexivity | discriminate]));
    vm_compute; reflexivity.
Defined.

Lemma region_text_witness :
  let items := BeginMarkedContentProps (Some "p0R_mc3")
               :: TextItem "Hello" false
               :: app (map (fun '(s, e) => TextItem s e) [(" ", false); ("", true); ("world", true)])
                      [EndMarkedContent] in
  default "" (mcidToText (processTextItems items empty_text_state) !! 3%Z)
  = "Hello world" ++ String "010"%char "".
Proof.
  intros items. subst items.
  destruct (region_text empty_text_state (Some "p0R_mc3") 3%Z "Hello" false
              [(" ", false); ("", true); ("world", true)] eq_refl)
    as (_ & H & _); [vm_compute; reflexivity | vm_compute; discriminate |].
  rewrite H. vm_compute. reflexivity.
Defined.

End Extras.

Module OperatorExtras.
Import Extract OpsFacts.

(** Extra X13. While the marked-content stack stays the same (no [BDC],
    [BMC] or [EMC] in between), the operator loop of [extractOperators]
    appends every operator to the list of every MCID on the stack, once
    per occurrence of the MCID: an enclosing region receives the
    operators of the regions nested in it, an MCID open twice receives
    them twice, and an operator outside marked content is recorded
    nowhere. *)
Theorem operators_recorded stack ex body m :
  Forall (fun o => match o with
                   | OpBeginMarkedContentProps _ _ | OpBeginMarkedContent | OpEndMarkedContent => False
                   | _ => True
                   end) body ->
  let st' := fold_left extract_step body (stack, ex) in
  fst st' = stack /\
  getOperators (snd st') m
  = app (getOperators ex m)
        (flat_map (fun o => repeat o (count_occ Z.eq_dec (active_mcids stack) m)) body).
Proof.
  revert ex. induction body as [|o body IH]; intros ex Hb; cbn zeta.
  - cbn. rewrite app_nil_r. auto.
  - apply Forall_cons in Hb as [Ho Hb]. cbn [fold_left flat_map].
    destruct (getOperators_step stack ex o m Ho) as [Hs Hg].
    destruct (extract_step (stack, ex) o) as [stack1 ex1] eqn:E. cbn [fst snd] in Hs, Hg. subst stack1.
    destruct (IH ex1 Hb) as [Hs' Hg']. split; [exact Hs'|].
    rewrite Hg', Hg, app_assoc. reflexivity.
Qed.

Lemma operators_recorded_witness :
  getOperators (snd (fold_left extract_step [OpOther 20%Z; OpPaintXObject "Im1"]
                       ([[1%Z]; [2%Z]; [1%Z]], mkExtractor ∅ ∅ ∅ ∅))) 1%Z
  = [OpOther 20%Z; OpOther 20%Z; OpPaintXObject "Im1"; OpPaintXObject "Im1"].
Proof.
  destruct (operators_recorded [[1%Z]; [2%Z]; [1%Z]] (mkExtractor ∅ ∅ ∅ ∅)
              [OpOther 20%Z; OpPaintXObject "Im1"] 1%Z) as [_ H];
    [repeat constructor |].
  rewrite H. vm_compute. reflexivity.
Defined.

End OperatorExtras.
